(** * Glotón Urbano: the authenticated API client

    A shallow embedding of the three service singletons of the application
    ([StorageService], [ApiService], [EnhancedApiService]) and of the role
    helpers of [AuthProvider], together with the properties the
    specification states about them.

    The services are written with JavaScript [async] functions.  They are
    embedded as programs of a small free monad ([prog]) whose nodes are the
    effects the code performs (reading and writing the fields of the
    singletons, dispatching a [fetch], calling an async function, awaiting
    a promise) and they are run by an event loop ([exec], [drain],
    [deliver]) that follows the run-to-completion discipline of the
    language: a call to an async function runs synchronously up to its
    first [await], and every [await] suspends the task. *)

From Stdlib Require Import ZArith QArith String Ascii List Bool Lia FunctionalExtensionality.
From stdpp Require Import base tactics option list gmap strings pretty.

Close Scope Q_scope.
Set Warnings "-register-all".
Local Open Scope string_scope.
Local Open Scope list_scope.

(* ------------------------------------------------------------------ *)
(** ** JavaScript values *)

(** Numbers: the finite doubles are rationals; the three special values
    are kept apart because comparisons treat them specially. *)
Inductive jsnum : Type :=
| Finite (q : Q)
| NaN
| PosInf
| NegInf.

(** The values the services handle: the JSON-shaped ones and [Date]
    objects (a time value, NaN when invalid).  Each [ascii] of a string
    stands for one code unit; objects are association lists read at their
    first binding. *)
Inductive jsval : Type :=
| VUndef
| VNull
| VBool (b : bool)
| VNum (n : jsnum)
| VStr (s : string)
| VObj (fields : list (string * jsval))
| VArr (items : list jsval)
| VDate (t : jsnum).

Inductive errkind : Type := KError | KTypeError | KSyntaxError | KRangeError.

(** An exception object: its constructor and its [message]. *)
Record jserror : Type := JsError { kind : errkind; message : string }.

Definition Error (msg : string) : jserror := JsError KError msg.
Definition TypeError (msg : string) : jserror := JsError KTypeError msg.
Definition SyntaxError (msg : string) : jserror := JsError KSyntaxError msg.
Definition RangeError (msg : string) : jserror := JsError KRangeError msg.

(** [a < b] and [a > b] on numbers: false as soon as one side is NaN. *)
Definition num_lt (a b : jsnum) : bool :=
  match a, b with
  | NaN, _ | _, NaN => false
  | Finite x, Finite y => match Qcompare x y with Lt => true | _ => false end
  | NegInf, NegInf => false
  | NegInf, _ => true
  | _, NegInf => false
  | PosInf, _ => false
  | Finite _, PosInf => true
  end.

Definition num_gt (a b : jsnum) : bool := num_lt b a.

Definition num_of_Z (z : Z) : jsnum := Finite (inject_Z z).

(** ToBoolean. *)
Definition truthy (v : jsval) : bool :=
  match v with
  | VUndef | VNull => false
  | VBool b => b
  | VNum NaN => false
  | VNum (Finite q) => negb (Qeq_bool q 0)
  | VNum _ => true
  | VStr s => negb (String.eqb s "")
  | VObj _ | VArr _ | VDate _ => true
  end.

(** [typeof v]. *)
Definition typeof (v : jsval) : string :=
  match v with
  | VUndef => "undefined"
  | VNull => "object"
  | VBool _ => "boolean"
  | VNum _ => "number"
  | VStr _ => "string"
  | VObj _ | VArr _ | VDate _ => "object"
  end.

Fixpoint assoc (name : string) (fields : list (string * jsval)) : jsval :=
  match fields with
  | [] => VUndef
  | (k, v) :: rest => if String.eqb k name then v else assoc name rest
  end.

(** [v.name] and [v[name]]: a TypeError on [undefined] and [null], the
    field (or [undefined]) on an object, [length] on strings and arrays. *)
Definition getprop (v : jsval) (name : string) : jserror + jsval :=
  match v with
  | VUndef => inl (TypeError "Cannot read properties of undefined")
  | VNull => inl (TypeError "Cannot read properties of null")
  | VObj fields => inr (assoc name fields)
  | VStr s =>
      inr (if String.eqb name "length"
           then VNum (num_of_Z (Z.of_nat (String.length s))) else VUndef)
  | VArr items =>
      inr (if String.eqb name "length"
           then VNum (num_of_Z (Z.of_nat (List.length items))) else VUndef)
  | VBool _ | VNum _ | VDate _ => inr VUndef
  end.

(** [String.prototype.includes]. *)
Fixpoint includes (s sub : string) : bool :=
  String.prefix sub s ||
  match s with
  | EmptyString => false
  | String _ rest => includes rest sub
  end.

(** [v === s] for a string literal [s]. *)
Definition is_string (v : jsval) (s : string) : bool :=
  match v with
  | VStr s' => String.eqb s' s
  | _ => false
  end.

(** What the host supplies and the sources only use: the clock, the
    [Date] conversions, and the coercions of non-primitive values. *)
Record Host : Type := {
  now : Z;                         (* new Date().getTime() *)
  addHours : Z -> Z -> Z;          (* d.setHours(d.getHours() + n), local time *)
  toISOString : Q -> string;       (* d.toISOString() on a valid date *)
  dateParse : jsval -> jsnum;      (* new Date(v).getTime(); NaN if invalid *)
  hostToNumber : jsval -> jsnum;   (* ToNumber on strings, objects, arrays *)
  hostToString : jsval -> string;  (* ToString on non-strings *)
}.

Definition ToNumber (h : Host) (v : jsval) : jsnum :=
  match v with
  | VUndef => NaN
  | VNull => num_of_Z 0
  | VBool b => num_of_Z (if b then 1 else 0)
  | VNum n => n
  | VDate t => t
  | VStr _ | VObj _ | VArr _ => hostToNumber h v
  end.

Definition ToString (h : Host) (v : jsval) : string :=
  match v with
  | VStr s => s
  | _ => hostToString h v
  end.

(* ------------------------------------------------------------------ *)
(** ** The state of the three singletons *)

(** A promise is named by the path of the task that computes it: the
    index of the call among the calls of its parent, then the parent. *)
Definition pid : Type := list nat.

Fixpoint pid_eqb (p q : pid) : bool :=
  match p, q with
  | [], [] => true
  | i :: p', j :: q' => Nat.eqb i j && pid_eqb p' q'
  | _, _ => false
  end.

Record Heap : Type := mkHeap {
  (* ApiService *)
  baseURL : string;
  token : jsval;
  isAuthenticated : bool;
  (* StorageService *)
  memoryStorage : gmap string jsval;
  (* EnhancedApiService *)
  isInitialized : bool;
  refreshPromise : option pid;
  (* the runtime *)
  host : Host;
}.

(** What [fetch] is given. *)
Record Request : Type := mkRequest {
  rq_base : string;
  rq_endpoint : string;
  rq_method : string;
  rq_auth : option jsval;   (* the token of the Authorization header *)
  rq_body : jsval;
}.

(** What [fetch] and then [response.json()] yield: the fetch rejects, or
    a response arrives with a status and a body that parses or not. *)
Inductive FetchResult : Type :=
| NetworkFailure (e : jserror)
| Response (status : Z) (body : option jsval).

Inductive outcome : Type :=
| Fulfilled (v : jsval)
| Rejected (e : jserror).

(* ------------------------------------------------------------------ *)
(** ** Async programs *)

Inductive prog (A : Type) : Type :=
| Ret (a : A)
| Throw (e : jserror)
| Get (k : Heap -> prog A)
| Put (h : Heap) (k : prog A)
| Fetch (rq : Request) (k : FetchResult -> prog A)
| Call (name : string) (body : prog jsval) (k : pid -> prog A)
| Await (p : pid) (k : outcome -> prog A)
| TestB (b : bool) (k : bool -> prog A)
| TestR (r : jserror + jsval) (k : jserror + jsval -> prog A).

Arguments Ret {A} a.
Arguments Throw {A} e.
Arguments Get {A} k.
Arguments Put {A} h k.
Arguments Fetch {A} rq k.
Arguments Call {A} name body k.
Arguments Await {A} p k.
Arguments TestB {A} b k.
Arguments TestR {A} r k.

Fixpoint bind {A B : Type} (m : prog A) (f : A -> prog B) : prog B :=
  match m with
  | Ret a => f a
  | Throw e => Throw e
  | Get k => Get (fun h => bind (k h) f)
  | Put h k => Put h (bind k f)
  | Fetch rq k => Fetch rq (fun r => bind (k r) f)
  | Call name body k => Call name body (fun p => bind (k p) f)
  | Await p k => Await p (fun o => bind (k o) f)
  | TestB b k => TestB b (fun x => bind (k x) f)
  | TestR r k => TestR r (fun x => bind (k x) f)
  end.

Notation "x <- m ;; k" := (bind m (fun x => k))
  (at level 100, m at next level, right associativity).
Notation "m ;;; k" := (bind m (fun _ => k))
  (at level 100, right associativity).

(** [try { m } catch (e) { handler e }]. *)
Fixpoint try_catch {A : Type} (m : prog A) (handler : jserror -> prog A) : prog A :=
  match m with
  | Ret a => Ret a
  | Throw e => handler e
  | Get k => Get (fun h => try_catch (k h) handler)
  | Put h k => Put h (try_catch k handler)
  | Fetch rq k => Fetch rq (fun r => try_catch (k r) handler)
  | Call name body k => Call name body (fun p => try_catch (k p) handler)
  | Await p k => Await p (fun o => try_catch (k o) handler)
  | TestB b k => TestB b (fun x => try_catch (k x) handler)
  | TestR r k => TestR r (fun x => try_catch (k x) handler)
  end.

(** [try { m } finally { fin }]. *)
Definition try_finally {A : Type} (m : prog A) (fin : prog unit) : prog A :=
  r <- try_catch (a <- m ;; Ret (inl a)) (fun e => Ret (inr e)) ;;
  fin ;;;
  match r with
  | inl a => Ret a
  | inr e => Throw e
  end.

Definition get : prog Heap := Get Ret.
Definition modify (f : Heap -> Heap) : prog unit := Get (fun h => Put (f h) (Ret tt)).

(** Calling an async function yields its promise. *)
Definition async (name : string) (body : prog jsval) : prog pid := Call name body Ret.

Definition of_outcome (o : outcome) : prog jsval :=
  match o with
  | Fulfilled v => Ret v
  | Rejected e => Throw e
  end.

(** [await p]; [return p] from an async function adopts [p] the same way. *)
Definition await (p : pid) : prog jsval := Await p of_outcome.

(** [await f(...)]. *)
Definition awaiting (call : prog pid) : prog jsval := p <- call ;; await p.

(** An expression that may throw, evaluated in a program. *)
Definition lift (r : jserror + jsval) : prog jsval :=
  TestR r (fun x => match x with
                    | inl e => Throw e
                    | inr v => Ret v
                    end).

(** [if (c) { a } else { b }] on a computed condition. *)
Definition ite {A : Type} (c : bool) (a b : prog A) : prog A :=
  TestB c (fun x => if x then a else b).

(** [a || b], as a program so that the operand kept is a plain value. *)
Definition or_else (a b : jsval) : prog jsval := ite (truthy a) (Ret a) (Ret b).

Definition prop (v : jsval) (name : string) : prog jsval := lift (getprop v name).

(* ------------------------------------------------------------------ *)
(** ** The event loop *)

(** What the loop records: every call of an async function, with the
    promise it returned, and every request handed to [fetch]. *)
Inductive event : Type :=
| EvCall (name : string) (p : pid)
| EvFetch (rq : Request).

Record World : Type := mkWorld {
  heap : Heap;
  settled : pid -> option outcome;
  waiters : pid -> list (pid * (outcome -> prog jsval));
  children : pid -> nat;
  inflight : list (pid * (FetchResult -> prog jsval));
  ready : list (pid * prog jsval);
  trace : list event;
  next : nat;
}.

Definition upd {V : Type} (f : pid -> V) (p : pid) (v : V) : pid -> V :=
  fun q => if pid_eqb q p then v else f q.

(** Task [p] has finished: record it and queue the continuations of the
    tasks that awaited it. *)
Definition settle (p : pid) (o : outcome) (w : World) : World :=
  match w with
  | mkWorld h st wt ch fl rd tr nx =>
      mkWorld h (upd st p (Some o)) (upd wt p []) ch fl
              (rd ++ List.map (fun '(q, k) => (q, k o)) (wt p)) tr nx
  end.

(** Run task [me] up to its next suspension point. *)
Fixpoint exec (me : pid) (t : prog jsval) (w : World) : World :=
  match t with
  | Ret v => settle me (Fulfilled v) w
  | Throw e => settle me (Rejected e) w
  | Get k =>
      match w with
      | mkWorld h st wt ch fl rd tr nx => exec me (k h) (mkWorld h st wt ch fl rd tr nx)
      end
  | Put h' k =>
      match w with
      | mkWorld h st wt ch fl rd tr nx => exec me k (mkWorld h' st wt ch fl rd tr nx)
      end
  | Fetch rq k =>
      match w with
      | mkWorld h st wt ch fl rd tr nx =>
          mkWorld h st wt ch (fl ++ [(me, k)]) rd (tr ++ [EvFetch rq]) nx
      end
  | Call name body k =>
      match w with
      | mkWorld h st wt ch fl rd tr nx =>
          let p := ch me :: me in
          match exec p body
                     (mkWorld h st wt (upd ch me (S (ch me))) fl rd
                              (tr ++ [EvCall name p]) nx) with
          | mkWorld h1 st1 wt1 ch1 fl1 rd1 tr1 nx1 =>
              exec me (k p) (mkWorld h1 st1 wt1 ch1 fl1 rd1 tr1 nx1)
          end
      end
  | Await p k =>
      match w with
      | mkWorld h st wt ch fl rd tr nx =>
          match st p with
          | Some o => mkWorld h st wt ch fl (rd ++ [(me, k o)]) tr nx
          | None => mkWorld h st (upd wt p (wt p ++ [(me, k)])) ch fl rd tr nx
          end
      end
  | TestB b k => exec me (k b) w
  | TestR r k => exec me (k r) w
  end.

(** One turn of the microtask queue. *)
Definition turn (w : World) : World :=
  match w with
  | mkWorld h st wt ch fl rd tr nx =>
      match rd with
      | [] => mkWorld h st wt ch fl rd tr nx
      | (p, t) :: rest => exec p t (mkWorld h st wt ch fl rest tr nx)
      end
  end.

(** Drain the microtask queue. *)
Fixpoint drain (fuel : nat) (w : World) : World :=
  match fuel with
  | O => w
  | S fuel' =>
      match w with
      | mkWorld h st wt ch fl rd tr nx =>
          match rd with
          | [] => mkWorld h st wt ch fl rd tr nx
          | _ :: _ => drain fuel' (turn (mkWorld h st wt ch fl rd tr nx))
          end
      end
  end.

(** The network answers the oldest fetch in flight. *)
Definition deliver (fuel : nat) (r : FetchResult) (w : World) : World :=
  match w with
  | mkWorld h st wt ch fl rd tr nx =>
      match fl with
      | [] => mkWorld h st wt ch fl rd tr nx
      | (p, k) :: rest => drain fuel (exec p (k r) (mkWorld h st wt ch rest rd tr nx))
      end
  end.

(** A fresh event loop around the singletons. *)
Definition boot (h : Heap) : World :=
  mkWorld h (fun _ => None) (fun _ => []) (fun _ => 0) [] [] [] 0.

(** The [i]-th call of the application is the task [caller i]. *)
Definition caller (i : nat) : pid := [i].

(** The application calls a method and awaits it: the synchronous prefix
    of the call runs at once. *)
Definition invoke (call : prog pid) (w : World) : World :=
  match w with
  | mkWorld h st wt ch fl rd tr nx =>
      exec (caller nx) (awaiting call) (mkWorld h st wt ch fl rd tr (S nx))
  end.

(** No microtask is queued and no fetch is in flight. *)
Definition quiescent (w : World) : Prop := ready w = [] /\ inflight w = [].

(** Counting in the trace. *)
Definition is_call (name : string) (ev : event) : bool :=
  match ev with
  | EvCall name' _ => String.eqb name' name
  | EvFetch _ => false
  end.

Definition is_fetch (endpoint : string) (ev : event) : bool :=
  match ev with
  | EvCall _ _ => false
  | EvFetch rq => String.eqb (rq_endpoint rq) endpoint
  end.

Definition is_any_fetch (ev : event) : bool :=
  match ev with
  | EvCall _ _ => false
  | EvFetch _ => true
  end.

Definition calls (name : string) (w : World) : nat :=
  List.length (List.filter (is_call name) (trace w)).

Definition fetches (endpoint : string) (w : World) : nat :=
  List.length (List.filter (is_fetch endpoint) (trace w)).

Definition all_fetches (w : World) : nat :=
  List.length (List.filter is_any_fetch (trace w)).

(** Field updates of the singletons. *)
Definition with_baseURL (url : string) (h : Heap) : Heap :=
  mkHeap url (token h) (isAuthenticated h) (memoryStorage h)
         (isInitialized h) (refreshPromise h) (host h).

Definition with_token (t : jsval) (a : bool) (h : Heap) : Heap :=
  mkHeap (baseURL h) t a (memoryStorage h)
         (isInitialized h) (refreshPromise h) (host h).

Definition with_memoryStorage (m : gmap string jsval) (h : Heap) : Heap :=
  mkHeap (baseURL h) (token h) (isAuthenticated h) m
         (isInitialized h) (refreshPromise h) (host h).

Definition with_isInitialized (b : bool) (h : Heap) : Heap :=
  mkHeap (baseURL h) (token h) (isAuthenticated h) (memoryStorage h)
         b (refreshPromise h) (host h).

Definition with_refreshPromise (p : option pid) (h : Heap) : Heap :=
  mkHeap (baseURL h) (token h) (isAuthenticated h) (memoryStorage h)
         (isInitialized h) p (host h).

(** [Promise.all] over promises that are awaited in turn. *)
Fixpoint Promise_all (ps : list pid) : prog (list jsval) :=
  match ps with
  | [] => Ret []
  | p :: rest => v <- await p ;; vs <- Promise_all rest ;; Ret (v :: vs)
  end.

(* ------------------------------------------------------------------ *)
(** ** StorageService (the in-memory implementation) *)

Module StorageService.

Record Keys : Type := {
  authToken : string;
  refreshToken : string;
  tokenExpiry : string;
  userProfile : string;
  userRoles : string;
  userPermissions : string;
  appSettings : string;
}.

Definition keys : Keys := {|
  authToken := "gu_auth_token";
  refreshToken := "gu_refresh_token";
  tokenExpiry := "gu_token_expiry";
  userProfile := "gu_user_profile";
  userRoles := "gu_user_roles";
  userPermissions := "gu_user_permissions";
  appSettings := "gu_app_settings";
|}.

Definition setItem (key : string) (value : jsval) : prog pid :=
  async "StorageService.setItem"
    (try_catch
       (modify (fun h => with_memoryStorage (<[key := value]> (memoryStorage h)) h) ;;;
        Ret (VBool true))
       (fun error => Ret (VBool false))).

Definition getItem (key : string) : prog pid :=
  async "StorageService.getItem"
    (try_catch
       (h <- get ;;
        or_else (default VUndef (memoryStorage h !! key)) VNull)
       (fun error => Ret VNull)).

Definition removeItem (key : string) : prog pid :=
  async "StorageService.removeItem"
    (try_catch
       (modify (fun h => with_memoryStorage (delete key (memoryStorage h)) h) ;;;
        Ret (VBool true))
       (fun error => Ret (VBool false))).

Definition clear : prog pid :=
  async "StorageService.clear"
    (try_catch
       (modify (fun h => with_memoryStorage ∅ h) ;;;
        Ret (VBool true))
       (fun error => Ret (VBool false))).

(** Authentication storage. *)

Definition storeAuthToken (tok : jsval) : prog pid :=
  async "StorageService.storeAuthToken" (awaiting (setItem (authToken keys) tok)).

Definition getAuthToken : prog pid :=
  async "StorageService.getAuthToken" (awaiting (getItem (authToken keys))).

Definition removeAuthToken : prog pid :=
  async "StorageService.removeAuthToken" (awaiting (removeItem (authToken keys))).

Definition storeRefreshToken (tok : jsval) : prog pid :=
  async "StorageService.storeRefreshToken" (awaiting (setItem (refreshToken keys) tok)).

Definition getRefreshToken : prog pid :=
  async "StorageService.getRefreshToken" (awaiting (getItem (refreshToken keys))).

Definition removeRefreshToken : prog pid :=
  async "StorageService.removeRefreshToken" (awaiting (removeItem (refreshToken keys))).

(** [expiry instanceof Date ? expiry.toISOString() : expiry];
    [toISOString] throws a RangeError on an invalid date. *)
Definition storeTokenExpiry (expiry : jsval) : prog pid :=
  async "StorageService.storeTokenExpiry"
    (h <- get ;;
     expiryTime <-
       match expiry with
       | VDate (Finite q) => Ret (VStr (toISOString (host h) q))
       | VDate _ => Throw (RangeError "Invalid time value")
       | _ => Ret expiry
       end ;;
     awaiting (setItem (tokenExpiry keys) expiryTime)).

Definition getTokenExpiry : prog pid :=
  async "StorageService.getTokenExpiry"
    (expiry <- awaiting (getItem (tokenExpiry keys)) ;;
     h <- get ;;
     ite (truthy expiry) (Ret (VDate (dateParse (host h) expiry))) (Ret VNull)).

Definition isTokenExpired : prog pid :=
  async "StorageService.isTokenExpired"
    (expiry <- awaiting getTokenExpiry ;;
     ite (negb (truthy expiry))
         (Ret (VBool true))
         (h <- get ;;
          Ret (VBool (num_gt (num_of_Z (now (host h))) (ToNumber (host h) expiry))))).

(** User data storage. *)

Definition storeUserProfile (profile : jsval) : prog pid :=
  async "StorageService.storeUserProfile" (awaiting (setItem (userProfile keys) profile)).

Definition getUserProfile : prog pid :=
  async "StorageService.getUserProfile" (awaiting (getItem (userProfile keys))).

Definition removeUserProfile : prog pid :=
  async "StorageService.removeUserProfile" (awaiting (removeItem (userProfile keys))).

Definition storeUserRoles (roles : jsval) : prog pid :=
  async "StorageService.storeUserRoles" (awaiting (setItem (userRoles keys) roles)).

Definition getUserRoles : prog pid :=
  async "StorageService.getUserRoles" (awaiting (getItem (userRoles keys))).

Definition removeUserRoles : prog pid :=
  async "StorageService.removeUserRoles" (awaiting (removeItem (userRoles keys))).

Definition storeUserPermissions (permissions : jsval) : prog pid :=
  async "StorageService.storeUserPermissions"
    (awaiting (setItem (userPermissions keys) permissions)).

Definition getUserPermissions : prog pid :=
  async "StorageService.getUserPermissions" (awaiting (getItem (userPermissions keys))).

Definition removeUserPermissions : prog pid :=
  async "StorageService.removeUserPermissions"
    (awaiting (removeItem (userPermissions keys))).

(** The class declares [storeTokenExpiry], [getTokenExpiry] and
    [isTokenExpired] but no [removeTokenExpiry]: the member is
    [undefined], and calling it throws. *)
Definition removeTokenExpiry : prog pid :=
  Throw (TypeError "this.removeTokenExpiry is not a function").

(** The array literal is built before the [try] is entered. *)
Definition clearAuthData : prog pid :=
  async "StorageService.clearAuthData"
    (p1 <- removeAuthToken ;;
     p2 <- removeRefreshToken ;;
     p3 <- removeTokenExpiry ;;
     p4 <- removeUserProfile ;;
     p5 <- removeUserRoles ;;
     p6 <- removeUserPermissions ;;
     let promises := [p1; p2; p3; p4; p5; p6] in
     try_catch
       (Promise_all promises ;;; Ret (VBool true))
       (fun error => Ret (VBool false))).

Definition isStorageWorking : prog pid :=
  async "StorageService.isStorageWorking"
    (try_catch
       (let testKey := "storage_test_key" in
        let testValue := "test_value" in
        setResult <- awaiting (setItem testKey (VStr testValue)) ;;
        ite (negb (truthy setResult))
            (Ret (VBool false))
            (retrievedValue <- awaiting (getItem testKey) ;;
             ite (negb (is_string retrievedValue testValue))
                 (Ret (VBool false))
                 (awaiting (removeItem testKey))))
       (fun error => Ret (VBool false))).

(** App settings storage. *)

Definition storeAppSettings (settings : jsval) : prog pid :=
  async "StorageService.storeAppSettings" (awaiting (setItem (appSettings keys) settings)).

Definition getAppSettings : prog pid :=
  async "StorageService.getAppSettings" (awaiting (getItem (appSettings keys))).

(** [Object.values(this.keys)]. *)
Definition key_list : list string :=
  [authToken keys; refreshToken keys; tokenExpiry keys; userProfile keys;
   userRoles keys; userPermissions keys; appSettings keys].

(** [allKeys.includes(key)], for the keys of the map. *)
Definition has_key (m : gmap string jsval) (key : string) : bool :=
  match m !! key with
  | Some _ => true
  | None => false
  end.

Definition storage_info (m : gmap string jsval) : jsval :=
  let total := Z.of_nat (size m) in
  let auth := Z.of_nat (List.length (List.filter (has_key m) key_list)) in
  VObj [("totalKeys", VNum (num_of_Z total));
        ("authKeys", VNum (num_of_Z auth));
        ("otherKeys", VNum (num_of_Z (total - auth)));
        ("secureStoreAvailable", VBool false)].

Definition getStorageInfo : prog pid :=
  async "StorageService.getStorageInfo"
    (try_catch
       (h <- get ;;
        let info := storage_info (memoryStorage h) in
        Ret info)
       (fun error => Ret VNull)).


End StorageService.

(* ------------------------------------------------------------------ *)
(** ** ApiService *)

Module ApiService.

(** The [options] argument of [request]. *)
Record Options : Type := mkOptions {
  method : option string;
  body : jsval;                 (* [VUndef] when absent *)
  requireAuth : option bool;    (* [None] when absent *)
}.

Definition no_options : Options := mkOptions None VUndef None.

(** [options.requireAuth !== false]. *)
Definition requires_auth (options : Options) : bool :=
  match requireAuth options with
  | Some false => false
  | _ => true
  end.

Definition setBaseURL (url : string) : prog unit := modify (with_baseURL url).

Definition setToken (tok : jsval) : prog unit := modify (with_token tok (truthy tok)).

Definition clearToken : prog unit := modify (with_token VNull false).

(** Of the headers only the bearer token varies. *)
Definition getHeaders (includeAuth : bool) (h : Heap) : option jsval :=
  if includeAuth && truthy (token h) then Some (token h) else None.

(** [response.ok]. *)
Definition ok (status : Z) : bool := (200 <=? status)%Z && (status <=? 299)%Z.

(** [response.json()]. *)
Definition json (body : option jsval) : prog pid :=
  async "Response.json"
    match body with
    | Some data => Ret data
    | None => Throw (SyntaxError "JSON Parse error")
    end.

Definition request (endpoint : string) (options : Options) : prog pid :=
  async "ApiService.request"
    (h <- get ;;
     let config :=
       mkRequest (baseURL h) endpoint (default "GET" (method options))
                 (getHeaders (requires_auth options) h) (body options) in
     try_catch
       (response <- Fetch config Ret ;;
        match response with
        | NetworkFailure error => Throw error
        | Response status content =>
            data <- awaiting (json content) ;;
            ite (negb (ok status))
                (msg <- prop data "message" ;;
                 text <- or_else msg (VStr ("HTTP " ++ pretty status)) ;;
                 h' <- get ;;
                 Throw (Error (ToString (host h') text)))
                (Ret data)
        end)
       (fun error => Throw error)).

(** [response.data.<field>]. *)
Definition data_field (response : jsval) (field : string) : jserror + jsval :=
  match getprop response "data" with
  | inl e => inl e
  | inr data => getprop data field
  end.

(** [response.success && response.data.<field>]. *)
Definition success_and (response : jsval) (field : string) : jserror + jsval :=
  match getprop response "success" with
  | inl e => inl e
  | inr success => if truthy success then data_field response field else inr success
  end.

Definition login (credentials : jsval) : prog pid :=
  async "ApiService.login"
    (response <- awaiting (request "/login" (mkOptions (Some "POST") credentials (Some false))) ;;
     c <- lift (success_and response "token") ;;
     ite (truthy c)
         (tok <- lift (data_field response "token") ;; setToken tok)
         (Ret tt) ;;;
     Ret response).

Definition logout : prog pid :=
  async "ApiService.logout"
    (response <- awaiting (request "/logout" (mkOptions (Some "POST") VUndef None)) ;;
     success <- prop response "success" ;;
     ite (truthy success) clearToken (Ret tt) ;;;
     Ret response).

Definition refreshToken : prog pid :=
  async "ApiService.refreshToken"
    (response <- awaiting (request "/refresh" (mkOptions (Some "POST") VUndef None)) ;;
     c <- lift (success_and response "token") ;;
     ite (truthy c)
         (tok <- lift (data_field response "token") ;; setToken tok)
         (Ret tt) ;;;
     Ret response).

Definition getUserProfile : prog pid :=
  async "ApiService.getUserProfile" (awaiting (request "/user" no_options)).

Definition getUserRoles : prog pid :=
  async "ApiService.getUserRoles" (awaiting (request "/user/roles" no_options)).

Definition getUserPermissions : prog pid :=
  async "ApiService.getUserPermissions" (awaiting (request "/user/permissions" no_options)).

(** Analytics. *)

Fixpoint require_fields (eventData : jsval) (requiredFields : list string) : prog unit :=
  match requiredFields with
  | [] => Ret tt
  | field :: rest =>
      v <- prop eventData field ;;
      ite (negb (truthy v))
          (Throw (Error ("Missing required field: " ++ field)))
          (require_fields eventData rest)
  end.

(** [v !== undefined]. *)
Definition defined (v : jsval) : bool :=
  match v with
  | VUndef => false
  | _ => true
  end.

(** [typeof v !== 'number' || v < lo || v > hi]. *)
Definition out_of_range (h : Host) (v : jsval) (lo hi : Z) : bool :=
  negb (String.eqb (typeof v) "number")
  || num_lt (ToNumber h v) (num_of_Z lo)
  || num_gt (ToNumber h v) (num_of_Z hi).

Definition registerAnalyticsEvent (eventData : jsval) : prog pid :=
  async "ApiService.registerAnalyticsEvent"
    (h <- get ;;
     require_fields eventData ["device_uuid"; "event_keyword"] ;;;
     device_uuid <- prop eventData "device_uuid" ;;
     len <- prop device_uuid "length" ;;
     ite (num_gt (ToNumber (host h) len) (num_of_Z 255))
         (Throw (Error "device_uuid exceeds maximum length of 255 characters"))
         (Ret tt) ;;;
     event_keyword <- prop eventData "event_keyword" ;;
     len' <- prop event_keyword "length" ;;
     ite (num_gt (ToNumber (host h) len') (num_of_Z 255))
         (Throw (Error "event_keyword exceeds maximum length of 255 characters"))
         (Ret tt) ;;;
     latitude <- prop eventData "latitude" ;;
     ite (defined latitude && out_of_range (host h) latitude (-90) 90)
         (Throw (Error "latitude must be a number between -90 and 90"))
         (Ret tt) ;;;
     longitude <- prop eventData "longitude" ;;
     ite (defined longitude && out_of_range (host h) longitude (-180) 180)
         (Throw (Error "longitude must be a number between -180 and 180"))
         (Ret tt) ;;;
     location_accuracy <- prop eventData "location_accuracy" ;;
     ite (defined location_accuracy
          && negb (existsb (is_string location_accuracy) ["high"; "medium"; "low"]))
         (Throw (Error "location_accuracy must be one of: high, medium, low"))
         (Ret tt) ;;;
     awaiting (request "/analytics/register-event"
                       (mkOptions (Some "POST") eventData (Some true)))).

(** Utility methods. *)

Definition isUserAuthenticated (h : Heap) : bool := isAuthenticated h && truthy (token h).

Definition getCurrentToken (h : Heap) : jsval := token h.

(** Regular expressions as far as the two validators use them, matched
    by derivatives; [test] is [RegExp.prototype.test] of an expression
    anchored at both ends. *)
Inductive regex : Type :=
| Void
| Eps
| Cls (accepts : ascii -> bool)
| Cat (r1 r2 : regex)
| Alt (r1 r2 : regex)
| Star (r : regex).

Definition Plus (r : regex) : regex := Cat r (Star r).

Fixpoint nullable (r : regex) : bool :=
  match r with
  | Void => false
  | Eps => true
  | Cls _ => false
  | Cat r1 r2 => nullable r1 && nullable r2
  | Alt r1 r2 => nullable r1 || nullable r2
  | Star _ => true
  end.

Fixpoint deriv (c : ascii) (r : regex) : regex :=
  match r with
  | Void => Void
  | Eps => Void
  | Cls accepts => if accepts c then Eps else Void
  | Cat r1 r2 =>
      if nullable r1 then Alt (Cat (deriv c r1) r2) (deriv c r2)
      else Cat (deriv c r1) r2
  | Alt r1 r2 => Alt (deriv c r1) (deriv c r2)
  | Star r' => Cat (deriv c r') (Star r')
  end.

Definition test (r : regex) (s : string) : bool :=
  nullable (fold_left (fun r' c => deriv c r') (list_ascii_of_string s) r).

Definition code_in (lo hi : nat) (c : ascii) : bool :=
  (lo <=? nat_of_ascii c)%nat && (nat_of_ascii c <=? hi)%nat.

Definition is_char (x c : ascii) : bool := Ascii.eqb c x.

(** [\s] on code units below 256: tab to carriage return, space, no-break space. *)
Definition is_space (c : ascii) : bool :=
  code_in 9 13 c || (nat_of_ascii c =? 32)%nat || (nat_of_ascii c =? 160)%nat.

(** [[^\s@]]. *)
Definition email_char (c : ascii) : bool := negb (is_space c || is_char "@" c).

(** [/^[^\s@]+@[^\s@]+\.[^\s@]+$/]. *)
Definition emailRegex : regex :=
  Cat (Plus (Cls email_char))
      (Cat (Cls (is_char "@"))
           (Cat (Plus (Cls email_char))
                (Cat (Cls (is_char ".")) (Plus (Cls email_char))))).

Definition validateEmail (email : string) : bool := test emailRegex email.

(** The character class of [hasSpecialChar], by code: the twenty
    punctuation characters from the exclamation mark to the greater-than
    sign that the source lists. *)
Definition special_chars : list ascii :=
  List.map ascii_of_nat
           [33; 64; 35; 36; 37; 94; 38; 42; 40; 41; 44; 46; 63; 34; 58; 123; 125; 124; 60; 62].

Definition is_special (c : ascii) : bool := existsb (Ascii.eqb c) special_chars.

(** [/re/.test(s)] for an expression that is one character class. *)
Definition has_char (cls : ascii -> bool) (s : string) : bool :=
  existsb cls (list_ascii_of_string s).

Record PasswordDetails : Type := {
  minLength : bool;
  hasUpperCase : bool;
  hasLowerCase : bool;
  hasNumbers : bool;
  hasSpecialChar : bool;
}.

Record PasswordValidation : Type := {
  isValid : bool;
  details : PasswordDetails;
}.

Definition validatePassword (password : string) : PasswordValidation :=
  let min := 8 in
  let upper := has_char (code_in 65 90) password in
  let lower := has_char (code_in 97 122) password in
  let numbers := has_char (code_in 48 57) password in
  let special := has_char is_special password in
  let valid := (min <=? String.length password)%nat && upper && lower && numbers && special in
  {| isValid := valid;
     details := {| minLength := (min <=? String.length password)%nat;
                   hasUpperCase := upper;
                   hasLowerCase := lower;
                   hasNumbers := numbers;
                   hasSpecialChar := special |} |}.


End ApiService.

(* ------------------------------------------------------------------ *)
(** ** EnhancedApiService *)

Module EnhancedApiService.

(** [config.baseURL], the same in every environment. *)
Definition config_baseURL : string := "https://gu.mindware.com.mx/api/v1".

(** [const expiry = new Date(); expiry.setHours(expiry.getHours() + 24)]. *)
Definition expiry_in_24_hours (h : Heap) : jsval :=
  VDate (num_of_Z (addHours (host h) (now (host h)) 24)).

Definition login (credentials : jsval) : prog pid :=
  async "EnhancedApiService.login"
    (try_catch
       (response <- awaiting (ApiService.login credentials) ;;
        c <- lift (ApiService.success_and response "token") ;;
        ite (truthy c)
            (tok <- lift (ApiService.data_field response "token") ;;
             awaiting (StorageService.storeAuthToken tok) ;;;
             user <- lift (ApiService.data_field response "user") ;;
             awaiting (StorageService.storeUserProfile user) ;;;
             h <- get ;;
             awaiting (StorageService.storeTokenExpiry (expiry_in_24_hours h)) ;;;
             Ret tt)
            (Ret tt) ;;;
        Ret response)
       (fun error => Throw error)).

Definition logout : prog pid :=
  async "EnhancedApiService.logout"
    (try_catch
       (response <- awaiting ApiService.logout ;;
        success <- prop response "success" ;;
        ite (truthy success)
            (awaiting StorageService.clearAuthData ;;;
             ApiService.clearToken)
            (Ret tt) ;;;
        Ret response)
       (fun error =>
          awaiting StorageService.clearAuthData ;;;
          ApiService.clearToken ;;;
          Throw error)).

Definition refreshToken : prog pid :=
  async "EnhancedApiService.refreshToken"
    (h <- get ;;
     match refreshPromise h with
     | Some p => await p
     | None =>
         p <- async "EnhancedApiService.refreshToken.async"
                (try_finally
                   (try_catch
                      (response <- awaiting ApiService.refreshToken ;;
                       c <- lift (ApiService.success_and response "token") ;;
                       ite (truthy c)
                           (tok <- lift (ApiService.data_field response "token") ;;
                            awaiting (StorageService.storeAuthToken tok) ;;;
                            h' <- get ;;
                            awaiting (StorageService.storeTokenExpiry
                                        (expiry_in_24_hours h')) ;;;
                            Ret tt)
                           (Ret tt) ;;;
                       Ret response)
                      (fun error =>
                         awaiting StorageService.clearAuthData ;;;
                         ApiService.clearToken ;;;
                         Throw error))
                   (modify (with_refreshPromise None))) ;;
         modify (with_refreshPromise (Some p)) ;;;
         h'' <- get ;;
         match refreshPromise h'' with
         | Some q => await q
         | None => Ret VNull
         end
     end).

Definition initialize : prog pid :=
  async "EnhancedApiService.initialize"
    (h <- get ;;
     ite (isInitialized h)
         (Ret (VBool true))
         (try_catch
            (ApiService.setBaseURL config_baseURL ;;;
             tok <- awaiting StorageService.getAuthToken ;;
             ite (truthy tok)
                 (ApiService.setToken tok ;;;
                  isExpired <- awaiting StorageService.isTokenExpired ;;
                  ite (truthy isExpired)
                      (awaiting refreshToken ;;; Ret tt)
                      (Ret tt))
                 (Ret tt) ;;;
             modify (with_isInitialized true) ;;;
             Ret (VBool true))
            (fun error => Ret (VBool false)))).

Definition request (endpoint : string) (options : ApiService.Options) : prog pid :=
  async "EnhancedApiService.request"
    (awaiting initialize ;;;
     try_catch
       (awaiting (ApiService.request endpoint options))
       (fun error =>
          ite (includes (message error) "401" && ApiService.requires_auth options)
              (try_catch
                 (awaiting refreshToken ;;;
                  awaiting (ApiService.request endpoint options))
                 (fun refreshError =>
                    awaiting logout ;;;
                    Throw (Error "Authentication expired. Please login again.")))
              (Throw error))).

(** [{ success: true, data: { <field>: cached } }]. *)
Definition cached_envelope (field : string) (cached : jsval) : jsval :=
  VObj [("success", VBool true); ("data", VObj [(field, cached)])].

Definition getUserProfile (forceRefresh : bool) : prog pid :=
  async "EnhancedApiService.getUserProfile"
    (hit <- (if negb forceRefresh then
               cachedProfile <- awaiting StorageService.getUserProfile ;;
               ite (truthy cachedProfile)
                   (Ret (Some (cached_envelope "user" cachedProfile)))
                   (Ret None)
             else Ret None) ;;
     match hit with
     | Some cached => Ret cached
     | None =>
         response <- awaiting (request "/user" ApiService.no_options) ;;
         c <- lift (ApiService.success_and response "user") ;;
         ite (truthy c)
             (user <- lift (ApiService.data_field response "user") ;;
              awaiting (StorageService.storeUserProfile user) ;;; Ret tt)
             (Ret tt) ;;;
         Ret response
     end).

Definition getUserRoles (forceRefresh : bool) : prog pid :=
  async "EnhancedApiService.getUserRoles"
    (hit <- (if negb forceRefresh then
               cachedRoles <- awaiting StorageService.getUserRoles ;;
               ite (truthy cachedRoles)
                   (Ret (Some (cached_envelope "roles" cachedRoles)))
                   (Ret None)
             else Ret None) ;;
     match hit with
     | Some cached => Ret cached
     | None =>
         response <- awaiting (request "/user/roles" ApiService.no_options) ;;
         c <- lift (ApiService.success_and response "roles") ;;
         ite (truthy c)
             (roles <- lift (ApiService.data_field response "roles") ;;
              awaiting (StorageService.storeUserRoles roles) ;;; Ret tt)
             (Ret tt) ;;;
         Ret response
     end).

Definition getUserPermissions (forceRefresh : bool) : prog pid :=
  async "EnhancedApiService.getUserPermissions"
    (hit <- (if negb forceRefresh then
               cachedPermissions <- awaiting StorageService.getUserPermissions ;;
               ite (truthy cachedPermissions)
                   (Ret (Some (cached_envelope "permissions" cachedPermissions)))
                   (Ret None)
             else Ret None) ;;
     match hit with
     | Some cached => Ret cached
     | None =>
         response <- awaiting (request "/user/permissions" ApiService.no_options) ;;
         c <- lift (ApiService.success_and response "permissions") ;;
         ite (truthy c)
             (permissions <- lift (ApiService.data_field response "permissions") ;;
              awaiting (StorageService.storeUserPermissions permissions) ;;; Ret tt)
             (Ret tt) ;;;
         Ret response
     end).

Definition getHighestRoleLevel : prog pid :=
  async "EnhancedApiService.getHighestRoleLevel"
    (try_catch
       (response <- awaiting (getUserPermissions false) ;;
        c <- lift (ApiService.success_and response "highest_role_level") ;;
        ite (truthy c)
            (lift (ApiService.data_field response "highest_role_level"))
            (Ret (VNum (num_of_Z 1))))
       (fun error => Ret (VNum (num_of_Z 1)))).

End EnhancedApiService.

(* ------------------------------------------------------------------ *)
(** ** AnalyticsService *)

Module AnalyticsService.

(** The fields of the service. *)
Record Service : Type := {
  deviceUUID : jsval;
  appVersion : jsval;
  platform : jsval;
  platformVersion : jsval;
}.

Definition initialize (self : Service) (uuid : jsval) : Service :=
  {| deviceUUID := uuid;
     appVersion := appVersion self;
     platform := platform self;
     platformVersion := platformVersion self |}.

Definition getDeviceInfo (self : Service) : jsval :=
  VObj [("device_uuid", deviceUUID self);
        ("app_version", appVersion self);
        ("platform", platform self);
        ("platform_version", platformVersion self)].

Fixpoint indexed (i : nat) (items : list jsval) : list (string * jsval) :=
  match items with
  | [] => []
  | v :: rest => (pretty i, v) :: indexed (S i) rest
  end.

(** What [{ ...v }] copies: the own enumerable properties of [v]. *)
Definition own_properties (v : jsval) : list (string * jsval) :=
  match v with
  | VObj fields => fields
  | VArr items => indexed 0 items
  | VStr s => indexed 0 (List.map (fun c => VStr (String c EmptyString))
                                  (list_ascii_of_string s))
  | VUndef | VNull | VBool _ | VNum _ | VDate _ => []
  end.

(** [{ ...a, name: v, ...b }]: objects are read at their first binding,
    so what is written last comes first. *)
Definition event_of (self : Service) (eventKeyword additionalData : jsval) : jsval :=
  VObj (own_properties additionalData
          ++ [("event_keyword", eventKeyword)]
          ++ own_properties (getDeviceInfo self)).

Definition registerEvent (self : Service) (eventKeyword additionalData : jsval) : prog pid :=
  async "AnalyticsService.registerEvent"
    (ite (negb (truthy (deviceUUID self)))
         (Throw (Error "Analytics service not initialized. Call initialize() first."))
         (Ret tt) ;;;
     let eventData := event_of self eventKeyword additionalData in
     try_catch
       (result <- awaiting (ApiService.registerAnalyticsEvent eventData) ;;
        Ret result)
       (fun error => Ret VNull)).

Definition trackSessionStart (self : Service) (locationData : jsval) : prog pid :=
  async "AnalyticsService.trackSessionStart"
    (awaiting (registerEvent self (VStr "new_session") locationData)).

Definition trackInstall (self : Service) (locationData : jsval) : prog pid :=
  async "AnalyticsService.trackInstall"
    (awaiting (registerEvent self (VStr "new_install") locationData)).

Definition trackCustomEvent (self : Service) (eventKeyword eventData : jsval) : prog pid :=
  async "AnalyticsService.trackCustomEvent"
    (awaiting (registerEvent self eventKeyword eventData)).

End AnalyticsService.

(* ------------------------------------------------------------------ *)
(** ** AuthProvider: the role helper over the mirrored roles *)

Module AuthProvider.

Record Role : Type := mkRole { name : string; level : Z }.

(** [Math.max(...xs)], which is [-Infinity] on no argument. *)
Definition Math_max (xs : list Z) : jsnum :=
  fold_left (fun acc x => if num_lt acc (num_of_Z x) then num_of_Z x else acc) xs NegInf.

Definition getHighestRoleLevel (userRoles : list Role) : jsnum :=
  if Nat.eqb (List.length userRoles) 0 then num_of_Z 1
  else
    let maxLevel := Math_max (List.map level userRoles) in
    maxLevel.

(** [a >= b] on numbers. *)
Definition num_ge (a b : jsnum) : bool :=
  match a, b with
  | NaN, _ | _, NaN => false
  | _, _ => negb (num_lt a b)
  end.

Definition hasRole (userRoles : list Role) (roleName : string) : bool :=
  existsb (fun role => String.eqb (name role) roleName) userRoles.

Definition isAdmin (userRoles : list Role) : bool :=
  num_ge (getHighestRoleLevel userRoles) (num_of_Z 4).

Definition isSectorAdmin (userRoles : list Role) : bool :=
  num_ge (getHighestRoleLevel userRoles) (num_of_Z 3).

Definition isPropertyOwner (userRoles : list Role) : bool :=
  num_ge (getHighestRoleLevel userRoles) (num_of_Z 2).

(** [userPermissions.includes(permission)] on permission names. *)
Definition hasPermission (userPermissions : list string) (permission : string) : bool :=
  existsb (String.eqb permission) userPermissions.

Definition hasAnyPermission (userPermissions permissions : list string) : bool :=
  existsb (hasPermission userPermissions) permissions.

Definition hasAllPermissions (userPermissions permissions : list string) : bool :=
  forallb (hasPermission userPermissions) permissions.


End AuthProvider.

(* ------------------------------------------------------------------ *)
(** ** Scenarios *)

(** What happens to the loop from outside: the application calls a
    method, or the network answers the oldest request. *)
Inductive action : Type :=
| Invoke (call : prog pid)
| Answer (r : FetchResult).

Definition react (fuel : nat) (w : World) (a : action) : World :=
  match a with
  | Invoke call => drain fuel (invoke call w)
  | Answer r => deliver fuel r w
  end.

Definition play (fuel : nat) (acts : list action) (w : World) : World :=
  fold_left (react fuel) acts w.

(** What the [i]-th caller got. *)
Definition result (i : nat) (w : World) : option outcome := settled w (caller i).

(* ------------------------------------------------------------------ *)
(** ** Guided runs

    The same loop, except that every test of a program and every answer
    of the network is read from a list of choices; it returns the world
    reached, the choices left and the condition under which the choices
    were the right ones, or the test it has no choice for. *)

Inductive obs : Type :=
| OBool (b : bool)
| ORes (r : jserror + jsval)
| OAns (r : FetchResult).

Inductive guided (A : Type) : Type :=
| Known (a : A) (rest : list obs) (duty : Prop)
| Need (o : obs)
| Stray.

Arguments Known {A} a rest duty.
Arguments Need {A} o.
Arguments Stray {A}.

Definition gbind {A B : Type} (m : guided A) (f : A -> list obs -> guided B) : guided B :=
  match m with
  | Known a rest duty =>
      match f a rest with
      | Known b rest' duty' => Known b rest' (duty /\ duty')
      | Need o => Need o
      | Stray => Stray
      end
  | Need o => Need o
  | Stray => Stray
  end.

Fixpoint exec_guided (cs : list obs) (me : pid) (t : prog jsval) (w : World)
  : guided World :=
  match t with
  | Ret v => Known (settle me (Fulfilled v) w) cs True
  | Throw e => Known (settle me (Rejected e) w) cs True
  | Get k =>
      match w with
      | mkWorld h st wt ch fl rd tr nx =>
          exec_guided cs me (k h) (mkWorld h st wt ch fl rd tr nx)
      end
  | Put h' k =>
      match w with
      | mkWorld h st wt ch fl rd tr nx =>
          exec_guided cs me k (mkWorld h' st wt ch fl rd tr nx)
      end
  | Fetch rq k => Known (exec me (Fetch rq k) w) cs True
  | Call name body k =>
      match w with
      | mkWorld h st wt ch fl rd tr nx =>
          let p := ch me :: me in
          gbind (exec_guided cs p body
                   (mkWorld h st wt (upd ch me (S (ch me))) fl rd
                            (tr ++ [EvCall name p]) nx))
                (fun w1 cs1 => exec_guided cs1 me (k p) w1)
      end
  | Await p k => Known (exec me (Await p k) w) cs True
  | TestB b k =>
      match cs with
      | [] => Need (OBool b)
      | OBool x :: cs' =>
          gbind (Known tt cs' (b = x)) (fun _ cs1 => exec_guided cs1 me (k x) w)
      | _ :: _ => Stray
      end
  | TestR r k =>
      match cs with
      | [] => Need (ORes r)
      | ORes x :: cs' =>
          gbind (Known tt cs' (r = x)) (fun _ cs1 => exec_guided cs1 me (k x) w)
      | _ :: _ => Stray
      end
  end.

Definition turn_guided (cs : list obs) (w : World) : guided World :=
  match w with
  | mkWorld h st wt ch fl rd tr nx =>
      match rd with
      | [] => Known (mkWorld h st wt ch fl rd tr nx) cs True
      | (p, t) :: rest => exec_guided cs p t (mkWorld h st wt ch fl rest tr nx)
      end
  end.

Fixpoint drain_guided (fuel : nat) (cs : list obs) (w : World) : guided World :=
  match fuel with
  | O => Known w cs True
  | S fuel' =>
      match w with
      | mkWorld h st wt ch fl rd tr nx =>
          match rd with
          | [] => Known (mkWorld h st wt ch fl rd tr nx) cs True
          | _ :: _ =>
              gbind (turn_guided cs (mkWorld h st wt ch fl rd tr nx))
                    (fun w1 cs1 => drain_guided fuel' cs1 w1)
          end
      end
  end.

Definition deliver_guided (fuel : nat) (r : FetchResult) (cs : list obs) (w : World)
  : guided World :=
  match w with
  | mkWorld h st wt ch fl rd tr nx =>
      match fl with
      | [] => Known (mkWorld h st wt ch fl rd tr nx) cs True
      | (p, k) :: rest =>
          match cs with
          | [] => Need (OAns r)
          | OAns x :: cs' =>
              gbind (Known tt cs' (r = x))
                    (fun _ cs1 =>
                       gbind (exec_guided cs1 p (k x) (mkWorld h st wt ch rest rd tr nx))
                             (fun w1 cs2 => drain_guided fuel cs2 w1))
          | _ :: _ => Stray
          end
      end
  end.

Definition invoke_guided (call : prog pid) (cs : list obs) (w : World) : guided World :=
  match w with
  | mkWorld h st wt ch fl rd tr nx =>
      exec_guided cs (caller nx) (awaiting call) (mkWorld h st wt ch fl rd tr (S nx))
  end.

Definition react_guided (fuel : nat) (a : action) (cs : list obs) (w : World)
  : guided World :=
  match a with
  | Invoke call =>
      gbind (invoke_guided call cs w) (fun w1 cs1 => drain_guided fuel cs1 w1)
  | Answer r => deliver_guided fuel r cs w
  end.

Fixpoint play_guided (fuel : nat) (acts : list action) (cs : list obs) (w : World)
  : guided World :=
  match acts with
  | [] => Known w cs True
  | a :: rest =>
      gbind (react_guided fuel a cs w) (fun w1 cs1 => play_guided fuel rest cs1 w1)
  end.

Definition reached {A : Type} (g : guided A) (default : A) : A :=
  match g with
  | Known a _ _ => a
  | _ => default
  end.

Definition duty_of {A : Type} (g : guided A) : Prop :=
  match g with
  | Known _ _ duty => duty
  | _ => False
  end.

Definition pending {A : Type} (g : guided A) : option obs :=
  match g with
  | Need o => Some o
  | _ => None
  end.

(* ------------------------------------------------------------------ *)
(** ** Observations on a run *)

(** The promise the [i]-th call of the application returned. *)
Definition promise_of (i : nat) : pid := 0 :: caller i.





Definition not_a_function : jserror :=
  TypeError "this.removeTokenExpiry is not a function".

(* ------------------------------------------------------------------ *)
(** ** Sample states *)

(** A host whose clock stands at zero and whose conversions are constant. *)
Definition sample_host : Host := {|
  now := 0;
  addHours := fun t n => (t + n * 3600000)%Z;
  toISOString := fun _ => "1970-01-02T00:00:00.000Z";
  dateParse := fun _ => num_of_Z 86400000;
  hostToNumber := fun _ => NaN;
  hostToString := fun _ => "[object Object]";
|}.

Definition sample_profile : jsval :=
  VObj [("id", VNum (num_of_Z 7)); ("name", VStr "Ana")].

Definition sample_roles : jsval :=
  VArr [VObj [("name", VStr "admin"); ("level", VNum (num_of_Z 4))]].

Definition sample_permissions : jsval := VArr [VStr "properties.view"].

(** Every session key is stored. *)
Definition full_storage : gmap string jsval :=
  <[StorageService.authToken StorageService.keys := VStr "t0"]>
  (<[StorageService.refreshToken StorageService.keys := VStr "r0"]>
  (<[StorageService.tokenExpiry StorageService.keys := VStr "1970-01-02T00:00:00.000Z"]>
  (<[StorageService.userProfile StorageService.keys := sample_profile]>
  (<[StorageService.userRoles StorageService.keys := sample_roles]>
  (<[StorageService.userPermissions StorageService.keys := sample_permissions]> ∅))))).

(** A signed-in, initialized application. *)
Definition signed_in : Heap :=
  mkHeap EnhancedApiService.config_baseURL (VStr "t0") true full_storage true None
         sample_host.

(** The application right after start, before [initialize]: a token is
    stored without an expiry time. *)
Definition cold_start : Heap :=
  mkHeap EnhancedApiService.config_baseURL VNull false
         (<[StorageService.authToken StorageService.keys := VStr "t0"]> ∅)
         false None sample_host.

(** Nothing stored, nobody signed in, already initialized. *)
Definition signed_out : Heap :=
  mkHeap EnhancedApiService.config_baseURL VNull false ∅ true None sample_host.

Definition unauthenticated_body : jsval := VObj [("message", VStr "Unauthenticated.")].

Definition token_envelope (tok : string) : jsval :=
  VObj [("success", VBool true); ("data", VObj [("token", VStr tok)])].

(** What [ApiService.request] gives a signed-in application when the
    server answers [GET /user] with [status] and the JSON value [data]. *)
Definition failed_request (status : Z) (data : jsval) : option outcome :=
  result 0 (play 6 [Invoke (ApiService.request "/user" ApiService.no_options);
                    Answer (Response status (Some data))] (boot signed_in)).

(** The answer to [GET /user] has come back as [data], holding [user]: the
    caller has [data] and the profile in storage is [user]. *)
Definition refreshed (user data : jsval) (w : World) : Prop :=
  quiescent w
  /\ fetches "/user" w = 1
  /\ result 0 w = Some (Fulfilled data)
  /\ memoryStorage (heap w) !! StorageService.userProfile StorageService.keys = Some user.

(** [{ device_uuid: "d", event_keyword: "e", latitude: NaN }]. *)
Definition nan_event : jsval :=
  VObj [("device_uuid", VStr "d"); ("event_keyword", VStr "e"); ("latitude", VNum NaN)].


(* ------------------------------------------------------------------ *)
(** ** Callers that join a refresh in flight

    The world after the first call of [refreshToken()], and the world
    after [k] more calls, in closed form: each later caller [i] waits for
    its own call [[0; i]], which waits for the refresh. *)

(** The promise of the refresh the first caller starts. *)
Definition refresh_pid : pid := [0; 0; 0].

Definition subscriber (i : nat) : pid * (outcome -> prog jsval) := ([0; i], of_outcome).

Definition first_refresh (h : Heap) : World :=
  invoke EnhancedApiService.refreshToken (boot h).

Definition crowd0 (k : nat) (w : World) : World :=
  mkWorld (heap w) (settled w)
          (fun p =>
             match p with
             | [0; S i] => if Nat.ltb i k then [([S i], of_outcome)] else waiters w p
             | _ => if pid_eqb p refresh_pid
                    then waiters w p ++ List.map subscriber (seq 1 k)
                    else waiters w p
             end)
          (fun p =>
             match p with
             | [S i] => if Nat.ltb i k then 1 else children w p
             | _ => children w p
             end)
          (inflight w) (ready w) [] (S k).

(** The calls of the callers that join a refresh in flight. *)
Definition crowd_events (k : nat) : list event :=
  List.map (fun i => EvCall "EnhancedApiService.refreshToken" [0; i]) (seq 1 k).

(** The same world with [T] in front of its trace. *)
Definition prefix (T : list event) (w : World) : World :=
  match w with
  | mkWorld h st wt ch fl rd tr nx => mkWorld h st wt ch fl rd (T ++ tr) nx
  end.

Definition crowd (k : nat) (w : World) : World :=
  prefix (trace w ++ crowd_events k) (crowd0 k w).

(** A failure envelope: [{ success: false, message: "Not now" }]. *)
Definition refusal : jsval := VObj [("success", VBool false); ("message", VStr "Not now")].

(* ------------------------------------------------------------------ *)
(** ** Further observations *)

(** The strings an expression matches. *)
Inductive lang : ApiService.regex -> list ascii -> Prop :=
| lang_eps : lang ApiService.Eps []
| lang_cls accepts c : accepts c = true -> lang (ApiService.Cls accepts) [c]
| lang_cat r1 r2 s1 s2 :
    lang r1 s1 -> lang r2 s2 -> lang (ApiService.Cat r1 r2) (s1 ++ s2)
| lang_alt_l r1 r2 s : lang r1 s -> lang (ApiService.Alt r1 r2) s
| lang_alt_r r1 r2 s : lang r2 s -> lang (ApiService.Alt r1 r2) s
| lang_star_nil r : lang (ApiService.Star r) []
| lang_star_cons r s1 s2 :
    lang r s1 -> lang (ApiService.Star r) s2 -> lang (ApiService.Star r) (s1 ++ s2).

(** A non-empty run of characters that are neither white space nor the
    at sign. *)
Definition email_part (s : list ascii) : Prop :=
  s <> [] /\ forallb ApiService.email_char s = true.

(** What [ApiService.request] hands to [fetch]. *)
Definition request_of (h : Heap) (endpoint : string) (options : ApiService.Options) : Request :=
  mkRequest (baseURL h) endpoint (default "GET" (ApiService.method options))
            (if ApiService.requires_auth options && truthy (token h)
             then Some (token h) else None)
            (ApiService.body options).

(** The flag of ApiService says whether a token is set. *)
Definition consistent (h : Heap) : Prop := isAuthenticated h = truthy (token h).

(** [{ device_uuid: "d", event_keyword: "e", latitude }]. *)
Definition located_event (latitude : jsnum) : jsval :=
  VObj [("device_uuid", VStr "d"); ("event_keyword", VStr "e"); ("latitude", VNum latitude)].

(** The enhanced request did what the plain one ([api]) does, and no more. *)
Definition untouched (h : Heap) (api w : World) : Prop :=
  quiescent w
  /\ result 0 w = result 0 api
  /\ heap w = h
  /\ all_fetches w = 1
  /\ calls "EnhancedApiService.refreshToken" w = 0
  /\ calls "EnhancedApiService.logout" w = 0.

(** A success envelope of [/login]. *)
Definition login_envelope : jsval :=
  VObj [("success", VBool true);
        ("data", VObj [("token", VStr "t1"); ("user", sample_profile)])].

(** The first launch: nothing stored, nothing initialized. *)
Definition first_launch : Heap :=
  mkHeap EnhancedApiService.config_baseURL VNull false ∅ false None sample_host.

(* ------------------------------------------------------------------ *)
(** ** Guided runs agree with the loop *)

Lemma gbind_known {A B} (m : guided A) (f : A -> list obs -> guided B) b rest duty :
  gbind m f = Known b rest duty ->
  exists a rest1 d1 d2, m = Known a rest1 d1 /\ f a rest1 = Known b rest d2 /\ duty = (d1 /\ d2).
Proof.
  destruct m as [a r1 d1| |]; simpl; try discriminate.
  destruct (f a r1) as [b' r2 d2| |] eqn:E; try discriminate.
  intros H. injection H as -> -> <-. eauto 10.
Qed.

Lemma exec_guided_sound :
  forall (t : prog jsval) cs me w w' rest duty,
    exec_guided cs me t w = Known w' rest duty -> duty -> exec me t w = w'.
Proof.
  fix IH 1.
  intros t cs me w w' rest duty H D.
  destruct t as [v|e|k|h' k|rq k|name body k|p k|b k|r k]; simpl in *.
  - injection H as <- _ _. reflexivity.
  - injection H as <- _ _. reflexivity.
  - destruct w. exact (IH _ _ _ _ _ _ _ H D).
  - destruct w. exact (IH _ _ _ _ _ _ _ H D).
  - injection H as <- _ _. destruct w; reflexivity.
  - destruct w. apply gbind_known in H as (w1 & r1 & d1 & d2 & H1 & H2 & ->).
    destruct D as [D1 D2].
    rewrite (IH _ _ _ _ _ _ _ H1 D1). destruct w1. exact (IH _ _ _ _ _ _ _ H2 D2).
  - injection H as <- _ _. destruct w; reflexivity.
  - destruct cs as [|[x|x|x] cs']; try discriminate.
    destruct (exec_guided cs' me (k x) w) as [w1 r1 d1| |] eqn:E; try discriminate.
    injection H as <- _ <-. destruct D as [-> D1]. exact (IH _ _ _ _ _ _ _ E D1).
  - destruct cs as [|[x|x|x] cs']; try discriminate.
    destruct (exec_guided cs' me (k x) w) as [w1 r1 d1| |] eqn:E; try discriminate.
    injection H as <- _ <-. destruct D as [-> D1]. exact (IH _ _ _ _ _ _ _ E D1).
Qed.

Lemma turn_guided_sound cs w w' rest duty :
  turn_guided cs w = Known w' rest duty -> duty -> turn w = w'.
Proof.
  destruct w as [h st wt ch fl [|[p t] rd] tr nx]; simpl.
  - intros H _. injection H as <- _ _. reflexivity.
  - apply exec_guided_sound.
Qed.

Lemma drain_guided_sound fuel :
  forall cs w w' rest duty,
    drain_guided fuel cs w = Known w' rest duty -> duty -> drain fuel w = w'.
Proof.
  induction fuel as [|fuel IH]; intros cs w w' rest duty H D.
  - injection H as <- _ _. reflexivity.
  - destruct w as [h st wt ch fl [|x rd] tr nx].
    + injection H as <- _ _. reflexivity.
    + change (gbind (turn_guided cs (mkWorld h st wt ch fl (x :: rd) tr nx))
                    (fun w1 cs1 => drain_guided fuel cs1 w1) = Known w' rest duty) in H.
      change (drain fuel (turn (mkWorld h st wt ch fl (x :: rd) tr nx)) = w').
      apply gbind_known in H as (w1 & r1 & d1 & d2 & H1 & H2 & ->).
      destruct D as [D1 D2].
      rewrite (turn_guided_sound _ _ _ _ _ H1 D1). exact (IH _ _ _ _ _ H2 D2).
Qed.

Lemma react_guided_sound fuel a cs w w' rest duty :
  react_guided fuel a cs w = Known w' rest duty -> duty -> react fuel w a = w'.
Proof.
  destruct a as [call|r]; intros H D.
  - change (gbind (invoke_guided call cs w)
                  (fun w1 cs1 => drain_guided fuel cs1 w1) = Known w' rest duty) in H.
    apply gbind_known in H as (w1 & r1 & d1 & d2 & H1 & H2 & ->).
    destruct D as [D1 D2]. destruct w as [h st wt ch fl rd tr nx].
    change (drain fuel (exec (caller nx) (awaiting call)
                             (mkWorld h st wt ch fl rd tr (S nx))) = w').
    change (exec_guided cs (caller nx) (awaiting call)
                        (mkWorld h st wt ch fl rd tr (S nx)) = Known w1 r1 d1) in H1.
    rewrite (exec_guided_sound _ _ _ _ _ _ _ H1 D1).
    exact (drain_guided_sound _ _ _ _ _ _ H2 D2).
  - destruct w as [h st wt ch [|[p k] fl] rd tr nx].
    + injection H as <- _ _. reflexivity.
    + destruct cs as [|[x|x|x] cs']; try discriminate.
      change (gbind (Known tt cs' (r = x))
                (fun _ cs1 =>
                   gbind (exec_guided cs1 p (k x) (mkWorld h st wt ch fl rd tr nx))
                         (fun w1 cs2 => drain_guided fuel cs2 w1)) = Known w' rest duty) in H.
      change (drain fuel (exec p (k r) (mkWorld h st wt ch fl rd tr nx)) = w').
      apply gbind_known in H as (u & r0 & d0 & d3 & H0 & H & ->).
      injection H0 as _ <- <-.
      apply gbind_known in H as (w1 & r1 & d1 & d2 & H1 & H2 & ->).
      destruct D as [-> [D1 D2]].
      rewrite (exec_guided_sound _ _ _ _ _ _ _ H1 D1).
      exact (drain_guided_sound _ _ _ _ _ _ H2 D2).
Qed.

Lemma play_guided_sound fuel acts :
  forall cs w w' rest duty,
    play_guided fuel acts cs w = Known w' rest duty -> duty -> play fuel acts w = w'.
Proof.
  induction acts as [|a acts IH]; intros cs w w' rest duty H D.
  - injection H as <- _ _. reflexivity.
  - change (gbind (react_guided fuel a cs w)
                  (fun w1 cs1 => play_guided fuel acts cs1 w1) = Known w' rest duty) in H.
    change (play fuel acts (react fuel w a) = w').
    apply gbind_known in H as (w1 & r1 & d1 & d2 & H1 & H2 & ->).
    destruct D as [D1 D2].
    rewrite (react_guided_sound _ _ _ _ _ _ _ H1 D1). exact (IH _ _ _ _ _ H2 D2).
Qed.

Lemma play_by_choices fuel acts cs w :
  duty_of (play_guided fuel acts cs w) ->
  play fuel acts w = reached (play_guided fuel acts cs w) w.
Proof.
  destruct (play_guided fuel acts cs w) as [w' rest duty| |] eqn:E; simpl; try tauto.
  intros D. eapply play_guided_sound; eauto.
Qed.

(** Reduction that leaves the tests of the programs folded. *)
Ltac freeze_lazy :=
  lazy -[getprop truthy includes ToNumber num_gt num_lt is_string
         ApiService.ok ApiService.success_and ApiService.data_field
         ApiService.getHeaders ApiService.defined ApiService.out_of_range
         ApiService.requires_auth
         insert delete lookup empty map_insert map_delete gmap_lookup gmap_partial_alter
         gmap_empty String.eq_dec String.countable pretty String.append].

Ltac freeze_lazy_in H :=
  lazy -[getprop truthy includes ToNumber num_gt num_lt is_string
         ApiService.ok ApiService.success_and ApiService.data_field
         ApiService.getHeaders ApiService.defined ApiService.out_of_range
         ApiService.requires_auth
         insert delete lookup empty map_insert map_delete gmap_lookup gmap_partial_alter
         gmap_empty String.eq_dec String.countable pretty String.append] in H.

Ltac freeze_eval t :=
  eval lazy -[getprop truthy includes ToNumber num_gt num_lt is_string
         ApiService.ok ApiService.success_and ApiService.data_field
         ApiService.getHeaders ApiService.defined ApiService.out_of_range
         ApiService.requires_auth
         insert delete lookup empty map_insert map_delete gmap_lookup gmap_partial_alter
         gmap_empty String.eq_dec String.countable pretty String.append] in t.

Ltac use_facts :=
  repeat match goal with
         | H : ?a = _ |- context [?a] => rewrite H
         end.

Ltac solve_duty :=
  freeze_lazy;
  repeat split;
  first [ exact I | assumption | reflexivity | use_facts; freeze_lazy; reflexivity ].

(** The value of a test: read off the hypotheses, or both cases. *)
Ltac decide_bool t k :=
  lazymatch t with
  | true => k true
  | false => k false
  | _ =>
      first
        [ let E := fresh "E" in
          assert (E : t = true) by (use_facts; freeze_lazy; reflexivity); clear E; k true
        | let E := fresh "E" in
          assert (E : t = false) by (use_facts; freeze_lazy; reflexivity); clear E; k false
        | let E := fresh "E" in
          destruct t eqn:E; [ k true | k false ] ]
  end.

Ltac decide_res t k :=
  lazymatch t with
  | inl _ => k t
  | inr _ => k t
  | _ =>
      first
        [ lazymatch goal with H : t = ?v |- _ => k v end
        | let v := eval lazy in t in
          lazymatch v with
          | inl _ => k v
          | inr _ => k v
          end
        | let E := fresh "E" in
          let e := fresh "e" in
          let v := fresh "v" in
          destruct t as [e|v] eqn:E;
          [ k (@inl jserror jsval e) | k (@inr jserror jsval v) ] ]
  end.

Lemma answer_shape (r : FetchResult) :
  (exists e, r = NetworkFailure e) \/
  (exists status data, r = Response status (Some data)) \/
  (exists status, r = Response status None).
Proof. destruct r as [e|status [data|]]; eauto. Qed.

Ltac decide_answer t k :=
  lazymatch t with
  | NetworkFailure _ => k t
  | Response _ (Some _) => k t
  | Response _ None => k t
  | _ =>
      first
        [ lazymatch goal with H : t = ?v |- _ => k v end
        | let e := fresh "e" in
          let st := fresh "status" in
          let d := fresh "data" in
          let E := fresh "E" in
          destruct (answer_shape t) as [[e E] | [[st [d E]] | [st E]]];
          [ k (NetworkFailure e) | k (Response st (Some d)) | k (Response st None) ] ]
  end.

(** Find the choices of a scenario, branching where the hypotheses do not
    settle a test or the shape of an answer; [done] receives the scenario
    and its choices. *)
Ltac explore f a w cs done :=
  let p := freeze_eval (pending (play_guided f a cs w)) in
  lazymatch p with
  | None => done f a w cs
  | Some (OBool ?t) => decide_bool t ltac:(fun x => explore f a w (cs ++ [OBool x]) done)
  | Some (ORes ?t) => decide_res t ltac:(fun x => explore f a w (cs ++ [ORes x]) done)
  | Some (OAns ?t) => decide_answer t ltac:(fun x => explore f a w (cs ++ [OAns x]) done)
  end.

Ltac by_choices f a w cs := rewrite (play_by_choices f a cs w) by solve_duty.

Ltac by_choices_in H f a w cs := rewrite (play_by_choices f a cs w) in H by solve_duty.

(** Replace the run of the goal by its guided run. *)
Ltac guided :=
  lazymatch goal with
  | |- context [play ?f ?a ?w] =>
      explore f a w (@nil obs) ltac:(by_choices)
  end.

Ltac guided_in H :=
  lazymatch type of H with
  | context [play ?f ?a ?w] =>
      explore f a w (@nil obs) ltac:(by_choices_in H)
  end.

Ltac split_all := repeat match goal with |- _ /\ _ => split end.

(** A recorded test that computes to the other value. *)
Ltac refute :=
  try (match goal with
       | H : _ = true |- _ => solve [cbn in H; discriminate H]
       | H : _ = false |- _ => solve [cbn in H; discriminate H]
       end).

(* ------------------------------------------------------------------ *)
(** ** The loop: fuel, traces and waiting tasks *)

Lemma drain_idle fuel w : ready w = [] -> drain fuel w = w.
Proof.
  destruct w as [h st wt ch fl rd tr nx]; simpl. intros ->. destruct fuel; reflexivity.
Qed.

Lemma drain_add a : forall b w, drain (a + b) w = drain b (drain a w).
Proof.
  induction a as [|a IH]; intros b w; [reflexivity|].
  destruct w as [h st wt ch fl [|x rd] tr nx].
  - cbn [Nat.add drain]. symmetry. apply drain_idle. reflexivity.
  - cbn [Nat.add]. change (drain (S (a + b)) (mkWorld h st wt ch fl (x :: rd) tr nx))
      with (drain (a + b) (turn (mkWorld h st wt ch fl (x :: rd) tr nx))).
    change (drain (S a) (mkWorld h st wt ch fl (x :: rd) tr nx))
      with (drain a (turn (mkWorld h st wt ch fl (x :: rd) tr nx))).
    apply IH.
Qed.

Lemma exec_prefix T : forall t me w, exec me t (prefix T w) = prefix T (exec me t w).
Proof.
  fix IH 1. intros t me [h st wt ch fl rd tr nx].
  destruct t as [v|e|k|h' k|rq k|name body k|p k|b k|r k]; cbn [exec prefix].
  - reflexivity.
  - reflexivity.
  - exact (IH (k h) me (mkWorld h st wt ch fl rd tr nx)).
  - exact (IH k me (mkWorld h' st wt ch fl rd tr nx)).
  - rewrite app_assoc. reflexivity.
  - rewrite <- app_assoc.
    change (mkWorld h st wt (upd ch me (S (ch me))) fl rd
                    (T ++ tr ++ [EvCall name (ch me :: me)]) nx)
      with (prefix T (mkWorld h st wt (upd ch me (S (ch me))) fl rd
                              (tr ++ [EvCall name (ch me :: me)]) nx)).
    rewrite IH.
    destruct (exec (ch me :: me) body
                   (mkWorld h st wt (upd ch me (S (ch me))) fl rd
                            (tr ++ [EvCall name (ch me :: me)]) nx))
      as [h1 st1 wt1 ch1 fl1 rd1 tr1 nx1].
    exact (IH (k (ch me :: me)) me (mkWorld h1 st1 wt1 ch1 fl1 rd1 tr1 nx1)).
  - destruct (st p); reflexivity.
  - exact (IH (k b) me (mkWorld h st wt ch fl rd tr nx)).
  - exact (IH (k r) me (mkWorld h st wt ch fl rd tr nx)).
Qed.

Lemma drain_prefix T fuel : forall w, drain fuel (prefix T w) = prefix T (drain fuel w).
Proof.
  induction fuel as [|fuel IH]; intros [h st wt ch fl [|[p t] rd] tr nx]; try reflexivity.
  change (drain (S fuel) (prefix T (mkWorld h st wt ch fl ((p, t) :: rd) tr nx)))
    with (drain fuel (exec p t (prefix T (mkWorld h st wt ch fl rd tr nx)))).
  rewrite exec_prefix. apply IH.
Qed.

Lemma deliver_prefix T fuel r w :
  deliver fuel r (prefix T w) = prefix T (deliver fuel r w).
Proof.
  destruct w as [h st wt ch [|[p k] fl] rd tr nx]; [reflexivity|].
  change (deliver fuel r (prefix T (mkWorld h st wt ch ((p, k) :: fl) rd tr nx)))
    with (drain fuel (exec p (k r) (prefix T (mkWorld h st wt ch fl rd tr nx)))).
  rewrite exec_prefix. apply drain_prefix.
Qed.

Lemma play_app fuel a1 a2 w : play fuel (a1 ++ a2) w = play fuel a2 (play fuel a1 w).
Proof. apply fold_left_app. Qed.

Lemma pid_eqb_eq : forall p q, pid_eqb p q = true <-> p = q.
Proof.
  induction p as [|i p IH]; intros [|j q]; simpl; split; try congruence.
  - intros H. apply andb_prop in H as [H1 H2].
    apply Nat.eqb_eq in H1. apply IH in H2. congruence.
  - intros [= -> ->]. rewrite Nat.eqb_refl. apply IH. reflexivity.
Qed.

Lemma pid_eqb_neq p q : p <> q -> pid_eqb p q = false.
Proof.
  intros H. destruct (pid_eqb p q) eqn:E; [|reflexivity].
  apply pid_eqb_eq in E. contradiction.
Qed.

Lemma exec_of_outcome me o w : exec me (of_outcome o) w = settle me o w.
Proof. destruct o; reflexivity. Qed.

(** The subscribers at the head of the queue take the outcome and wake
    their callers. *)
Lemma release (o : outcome) (k : nat) :
  forall (s : nat) (w : World) (tl : list (pid * prog jsval)),
    ready w = List.map (fun '(p, kk) => (p, kk o)) (List.map subscriber (seq s k)) ++ tl ->
    (forall i, s <= i < s + k -> waiters w [0; i] = [([i], of_outcome)]) ->
    let w' := drain k w in
    ready w' = tl ++ List.map (fun i => ([i], of_outcome o)) (seq s k)
    /\ heap w' = heap w /\ trace w' = trace w /\ inflight w' = inflight w
    /\ (forall i, waiters w' [i] = waiters w [i])
    /\ (forall i, settled w' [i] = settled w [i]).
Proof.
  induction k as [|k IH]; intros s w tl Hrd Hwt.
  - cbn [seq List.map app drain] in *. rewrite app_nil_r. tauto.
  - destruct w as [h st wt ch fl rd tr nx]. cbn [ready waiters] in Hrd, Hwt. subst rd.
    cbn [seq List.map app subscriber].
    change (drain (S k) ?w) with (drain k (turn w)).
    cbn [turn]. rewrite exec_of_outcome. cbn [settle].
    rewrite (Hwt s) by lia. cbn [List.map].
    match goal with
    | |- context [drain k ?W] =>
        destruct (IH (S s) W (tl ++ [([s], of_outcome o)])) as (R1 & R2 & R3 & R4 & R5 & R6)
    end.
    + cbn [ready]. rewrite <- app_assoc. reflexivity.
    + intros i Hi. cbn [waiters]. unfold upd.
      rewrite pid_eqb_neq by (intros [= ->]; lia). apply Hwt. lia.
    + cbn zeta. rewrite R1, R2, R3, R4. cbn [ready waiters heap trace inflight settled].
      split_all; auto.
      * rewrite <- app_assoc. reflexivity.
      * intros i. rewrite R5. cbn [waiters]. unfold upd.
        rewrite pid_eqb_neq by discriminate. reflexivity.
      * intros i. rewrite R6. cbn [settled]. unfold upd.
        rewrite pid_eqb_neq by discriminate. reflexivity.
Qed.

(** The callers at the head of the queue take the outcome. *)
Lemma settle_callers (o : outcome) :
  forall (l : list nat) (w : World),
    ready w = List.map (fun i => ([i], of_outcome o)) l ->
    (forall i, In i l -> waiters w [i] = []) ->
    let w' := drain (List.length l) w in
    ready w' = [] /\ heap w' = heap w /\ trace w' = trace w /\ inflight w' = inflight w
    /\ (forall i, In i l -> settled w' [i] = Some o)
    /\ (forall i, ~ In i l -> settled w' [i] = settled w [i]).
Proof.
  induction l as [|i l IH]; intros w Hrd Hwt.
  - cbn [List.length drain List.map] in *. split_all; auto. intros i [].
  - destruct w as [h st wt ch fl rd tr nx]. cbn [ready waiters] in Hrd, Hwt. subst rd.
    cbn [List.length List.map].
    change (drain (S ?n) ?w) with (drain n (turn w)).
    cbn [turn]. rewrite exec_of_outcome. cbn [settle].
    rewrite (Hwt i) by (left; reflexivity). cbn [List.map]. rewrite app_nil_r.
    match goal with
    | |- context [drain (List.length l) ?W] =>
        destruct (IH W) as (R1 & R2 & R3 & R4 & R5 & R6)
    end.
    + reflexivity.
    + intros j Hj. cbn [waiters]. unfold upd. destruct (pid_eqb [j] [i]); [reflexivity|].
      apply Hwt. right. exact Hj.
    + cbn zeta. rewrite R1, R2, R3, R4. cbn [ready waiters heap trace inflight settled].
      split_all; auto.
      * intros j [<-|Hj]; [|auto].
        destruct (in_dec Nat.eq_dec i l) as [Hin|Hout]; [auto|].
        rewrite R6 by exact Hout. cbn [settled]. unfold upd.
        rewrite (proj2 (pid_eqb_eq [i] [i]) eq_refl). reflexivity.
      * intros j Hj. rewrite R6 by (intros Hin; apply Hj; right; exact Hin).
        cbn [settled]. unfold upd. rewrite pid_eqb_neq; [reflexivity|].
        intros [= ->]. apply Hj. left; reflexivity.
Qed.


(* ------------------------------------------------------------------ *)
(** ** Joining a refresh in flight *)

Lemma join_crowd (w : World) (k fuel : nat) :
  refreshPromise (heap w) = Some refresh_pid ->
  (forall p, settled w p = None) ->
  ready w = [] ->
  (forall i, children w [S i] = 0) ->
  (forall i, waiters w [0; S i] = []) ->
  react fuel (crowd k w) (Invoke EnhancedApiService.refreshToken) = crowd (S k) w.
Proof.
  destruct w as [[url tok a m i rp hst] st wt ch fl rd tr nx].
  cbn [heap refreshPromise settled ready children waiters].
  intros -> Hst -> Hch Hwt.
  assert (st = fun _ => None) as -> by (extensionality p; apply Hst). clear Hst.
  unfold react, crowd, crowd0, prefix, invoke, caller, awaiting,
    EnhancedApiService.refreshToken, async, await, get.
  cbn [heap settled waiters children inflight ready trace next refreshPromise bind exec].
  rewrite Nat.ltb_irrefl, Hch.
  cbn [bind exec refreshPromise].
  rewrite drain_idle by reflexivity.
  f_equal.
  - extensionality p. unfold upd, refresh_pid.
    destruct p as [|[|c0] [|[|c1] [|[|c2] [|c3 p]]]]; cbn [pid_eqb Nat.eqb andb];
      rewrite ?andb_false_r, ?andb_true_r; try reflexivity.
    + rewrite seq_S, map_app, app_assoc. reflexivity.
    + destruct (Nat.eqb_spec c1 k) as [->|Hne].
      * rewrite Nat.ltb_irrefl, Hwt, (proj2 (Nat.ltb_lt k (S k))) by lia. reflexivity.
      * destruct (Nat.ltb_spec c1 k), (Nat.ltb_spec c1 (S k)); try reflexivity; lia.
  - extensionality p. unfold upd.
    destruct p as [|[|c0] [|c1 p]]; cbn [pid_eqb Nat.eqb andb];
      rewrite ?andb_false_r, ?andb_true_r; try reflexivity.
    destruct (Nat.eqb_spec c0 k) as [->|Hne].
    + rewrite (proj2 (Nat.ltb_lt k (S k))) by lia. reflexivity.
    + destruct (Nat.ltb_spec c0 k), (Nat.ltb_spec c0 (S k)); try reflexivity; lia.
  - unfold crowd_events. rewrite seq_S, map_app, !app_nil_r, <- app_assoc. reflexivity.
Qed.

Lemma crowd_none (w : World) : next w = 1 -> crowd 0 w = w.
Proof.
  destruct w as [h st wt ch fl rd tr nx]. cbn [next]. intros ->.
  unfold crowd, crowd0, prefix, crowd_events.
  cbn [heap settled waiters children inflight ready trace next seq List.map].
  rewrite !app_nil_r. f_equal.
  - extensionality p. unfold refresh_pid.
    destruct p as [|[|c0] [|[|c1] [|c2 p]]]; try reflexivity.
    all: destruct (pid_eqb _ _); rewrite ?app_nil_r; reflexivity.
  - extensionality p. destruct p as [|[|c0] [|c1 p]]; reflexivity.
Qed.

(** [k] more callers join the refresh the first caller started. *)
Lemma joined (w : World) (k fuel : nat) :
  refreshPromise (heap w) = Some refresh_pid ->
  (forall p, settled w p = None) ->
  ready w = [] ->
  next w = 1 ->
  (forall i, children w [S i] = 0) ->
  (forall i, waiters w [0; S i] = []) ->
  play fuel (repeat (Invoke EnhancedApiService.refreshToken) k) w = crowd k w.
Proof.
  intros Hrp Hst Hrd Hnx Hch Hwt. induction k as [|k IH].
  - symmetry. apply crowd_none. exact Hnx.
  - cbn [repeat]. rewrite repeat_cons, play_app, IH. apply join_crowd; assumption.
Qed.

Lemma deliver_add (a b : nat) (r : FetchResult) (w : World) :
  ready w = [] -> deliver (a + b) r w = drain b (deliver a r w).
Proof.
  destruct w as [h st wt ch [|[p k] fl] rd tr nx]; cbn [ready]; intros ->.
  - symmetry. apply drain_idle. reflexivity.
  - apply drain_add.
Qed.

Lemma prefix_fields T w :
  heap (prefix T w) = heap w /\ settled (prefix T w) = settled w
  /\ ready (prefix T w) = ready w /\ inflight (prefix T w) = inflight w
  /\ trace (prefix T w) = T ++ trace w.
Proof. destruct w; repeat split. Qed.

(** From the moment the first caller's call has settled with [o] and the
    subscribers are at the head of the queue, every caller gets [o]. *)
Lemma crowd_settles (k a rest : nat) (r : FetchResult) (T : list event)
    (w wa : World) (o : outcome) :
  ready w = [] ->
  deliver a r w = wa ->
  ready wa = List.map (fun '(p, kk) => (p, kk o)) (List.map subscriber (seq 1 k))
             ++ [([0], of_outcome o)] ->
  (forall i, waiters wa [0; S i] = if Nat.ltb i k then [([S i], of_outcome)] else []) ->
  (forall i, waiters wa [i] = []) ->
  let wf := deliver (a + (k + (S k + rest))) r (prefix T w) in
  (forall i, i < S k -> settled wf [i] = Some o)
  /\ ready wf = [] /\ inflight wf = inflight wa
  /\ heap wf = heap wa /\ trace wf = T ++ trace wa.
Proof.
  intros Hrd Ha Hq Hsub Hcallers wf. subst wf.
  rewrite deliver_prefix, deliver_add, Ha by exact Hrd.
  rewrite drain_add.
  destruct (release o k 1 wa [([0], of_outcome o)] Hq) as (R1 & R2 & R3 & R4 & R5 & R6).
  { intros [|i] Hi; [lia|]. rewrite Hsub, (proj2 (Nat.ltb_lt i k)) by lia. reflexivity. }
  rewrite drain_add.
  destruct (settle_callers o (0 :: seq 1 k) (drain k wa)) as (S1 & S2 & S3 & S4 & S5 & S6).
  { rewrite R1. reflexivity. }
  { intros i _. rewrite R5. apply Hcallers. }
  cbn [List.length] in S1, S2, S3, S4, S5, S6. rewrite length_seq in S1, S2, S3, S4, S5, S6.
  rewrite (drain_idle rest) by exact S1.
  destruct (prefix_fields T (drain (S k) (drain k wa))) as (P1 & P2 & P3 & P4 & P5).
  rewrite P1, P2, P3, P4, P5, S1, S2, S3, S4, R2, R3, R4.
  split_all; try reflexivity.
  intros i Hi. apply S5. destruct i as [|i]; [left; reflexivity|right].
  apply in_seq. lia.
Qed.

Ltac crowd_lazy :=
  lazy -[getprop truthy includes ToNumber num_gt num_lt is_string
         ApiService.ok ApiService.success_and ApiService.data_field
         ApiService.getHeaders ApiService.defined ApiService.out_of_range
         ApiService.requires_auth
         insert delete lookup empty map_insert map_delete gmap_lookup gmap_partial_alter
         gmap_empty String.eq_dec String.countable pretty String.append Nat.ltb].

(** The least fuel with which the answer settles the first caller's call. *)
Ltac settle_time a r cs w k :=
  let s := freeze_eval (settled (reached (play_guided a [Answer r] cs w) w) [0; 0]) in
  lazymatch s with
  | Some ?o => k a o
  | None => settle_time (S a) r cs w k
  end.

Lemma first_refresh_shape (h : Heap) :
  refreshPromise h = None ->
  let w := first_refresh h in
  refreshPromise (heap w) = Some refresh_pid
  /\ (forall p, settled w p = None)
  /\ ready w = []
  /\ next w = 1
  /\ (forall i, children w [S i] = 0)
  /\ (forall i, waiters w [0; S i] = [])
  /\ calls "ApiService.refreshToken" w = 1
  /\ calls "EnhancedApiService.refreshToken" w = 1
  /\ all_fetches w = 1
  /\ fetches "/refresh" w = 1.
Proof.
  destruct h as [url tok a m i rp hst]. cbn [refreshPromise]. intros ->.
  lazy. split_all; reflexivity.
Qed.

Lemma count_around_crowd (f : event -> bool) (A C : list event) (k : nat) :
  (forall p, f (EvCall "EnhancedApiService.refreshToken" p) = false) ->
  List.length (List.filter f ((A ++ crowd_events k) ++ C))
  = List.length (List.filter f A) + List.length (List.filter f C).
Proof.
  intros Hf. rewrite !List.filter_app, !length_app.
  assert (List.filter f (crowd_events k) = []) as ->; [|cbn [List.length]; lia].
  unfold crowd_events. generalize 1. induction k as [|k IH]; intros s; [reflexivity|].
  cbn [seq List.map List.filter]. rewrite Hf. apply IH.
Qed.



(* ------------------------------------------------------------------ *)
(** ** Reading a response envelope *)


Lemma envelope_field (response s d : jsval) (field : string) :
  getprop response "success" = inr s -> truthy s = true ->
  getprop response "data" = inr d ->
  ApiService.data_field response field = getprop d field
  /\ ApiService.success_and response field = getprop d field.
Proof.
  intros Hs Ht Hd. unfold ApiService.success_and, ApiService.data_field.
  rewrite Hs, Ht, Hd. split; reflexivity.
Qed.

Lemma success_and_truthy (response : jsval) (field : string) (v : jsval) :
  ApiService.success_and response field = inr v -> truthy v = true ->
  ApiService.data_field response field = inr v.
Proof.
  unfold ApiService.success_and.
  destruct (getprop response "success") as [e|s]; [discriminate|].
  destruct (truthy s) eqn:E; [auto|]. intros [= <-]. congruence.
Qed.

(* ------------------------------------------------------------------ *)
(** ** [Math.max] over integer levels *)

Lemma num_lt_of_Z (a b : Z) : num_lt (num_of_Z a) (num_of_Z b) = (a <? b)%Z.
Proof.
  unfold num_lt, num_of_Z, Qcompare, inject_Z; simpl.
  rewrite !Z.mul_1_r. unfold Z.ltb. destruct (a ?= b)%Z; reflexivity.
Qed.

Lemma Math_max_from (xs : list Z) (a : Z) :
  fold_left (fun acc x => if num_lt acc (num_of_Z x) then num_of_Z x else acc) xs (num_of_Z a)
  = num_of_Z (fold_left Z.max xs a).
Proof.
  revert a. induction xs as [|x xs IH]; intros a; cbn [fold_left]; [reflexivity|].
  rewrite num_lt_of_Z. destruct (Z.ltb_spec a x).
  - rewrite IH. f_equal. f_equal. lia.
  - rewrite IH. f_equal. f_equal. lia.
Qed.

Lemma fold_max_spec (xs : list Z) (a : Z) :
  let top := fold_left Z.max xs a in
  (top = a \/ In top xs) /\ (a <= top)%Z /\ forall x, In x xs -> (x <= top)%Z.
Proof.
  revert a. induction xs as [|x xs IH]; intros a; simpl.
  - split_all; [left; reflexivity | lia | tauto].
  - destruct (IH (Z.max a x)) as (Hin & Hle & Hall). split_all.
    + destruct Hin as [Hin|Hin]; [|right; right; exact Hin].
      destruct (Z.max_spec a x) as [[_ E]|[_ E]]; [right; left | left]; congruence.
    + lia.
    + intros y [<-|Hy]; [lia | auto].
Qed.

(** [Math.max] of a non-empty list of levels is one of them and bounds
    them all. *)
Lemma Math_max_spec (x : Z) (xs : list Z) :
  exists top, In top (x :: xs)
              /\ AuthProvider.Math_max (x :: xs) = num_of_Z top
              /\ forall y, In y (x :: xs) -> (y <= top)%Z.
Proof.
  unfold AuthProvider.Math_max. cbn [fold_left].
  change (num_lt NegInf (num_of_Z x)) with true. cbn iota.
  rewrite Math_max_from.
  destruct (fold_max_spec xs x) as (Hin & Hle & Hall).
  exists (fold_left Z.max xs x). split_all.
  - destruct Hin as [->|Hin]; [left; reflexivity | right; exact Hin].
  - reflexivity.
  - intros y [<-|Hy]; [exact Hle | auto].
Qed.

(* ------------------------------------------------------------------ *)
(** ** StorageService.clearAuthData and what depends on it *)

(** C4. For every storage state [StorageService.clearAuthData()] rejects
    with a [TypeError], because it calls the method [removeTokenExpiry]
    that the class does not define.  When it rejects, which is at the end
    of the synchronous call, it has removed the auth-token and the
    refresh-token keys and nothing else: the token-expiry, user-profile,
    user-roles and user-permissions keys are as they were.  The caller
    that awaits the call receives the rejection. *)
Theorem clearAuthData_rejects_after_two_removals (h : Heap) (fuel : nat) :
  let keys := StorageService.keys in
  let w := invoke StorageService.clearAuthData (boot h) in
  settled w (promise_of 0) = Some (Rejected not_a_function)
  /\ result 0 (drain (8 + fuel) w) = Some (Rejected not_a_function)
  /\ memoryStorage (heap w)
     = delete (StorageService.refreshToken keys)
              (delete (StorageService.authToken keys) (memoryStorage h))
  /\ memoryStorage (heap w) !! StorageService.authToken keys = None
  /\ memoryStorage (heap w) !! StorageService.refreshToken keys = None
  /\ memoryStorage (heap w) !! StorageService.tokenExpiry keys
     = memoryStorage h !! StorageService.tokenExpiry keys
  /\ memoryStorage (heap w) !! StorageService.userProfile keys
     = memoryStorage h !! StorageService.userProfile keys
  /\ memoryStorage (heap w) !! StorageService.userRoles keys
     = memoryStorage h !! StorageService.userRoles keys
  /\ memoryStorage (heap w) !! StorageService.userPermissions keys
     = memoryStorage h !! StorageService.userPermissions keys.
Proof.
  destruct h as [url tok a m i rp hst]. freeze_lazy. split_all; try reflexivity.
  - rewrite lookup_delete_ne by done. apply lookup_delete_eq.
  - apply lookup_delete_eq.
  - rewrite !lookup_delete_ne by done. reflexivity.
  - rewrite !lookup_delete_ne by done. reflexivity.
  - rewrite !lookup_delete_ne by done. reflexivity.
  - rewrite !lookup_delete_ne by done. reflexivity.
Qed.

(** C5, at an input where it fails.  [clearAuthData()] is one of the
    operations of StorageService, and on an empty store it rejects to its
    caller with the TypeError instead of resolving to [false]. *)
Theorem clearAuthData_rejects_to_its_caller (fuel : nat) :
  let w := play (8 + fuel) [Invoke StorageService.clearAuthData] (boot signed_out) in
  result 0 w = Some (Rejected not_a_function) /\ quiescent w.
Proof.
  freeze_lazy. split_all; reflexivity.
Qed.



(* ------------------------------------------------------------------ *)
(** ** ApiService.request: the error of a failed response *)

(** C7, as stated, fails.  The server answers 401 and 403 with the same
    body [{ message: "Unauthenticated." }]: both requests reject with the
    same [Error], whose only content is that message, so nothing read
    from the error gives back the status of the response. *)
Lemma request_error_omits_the_status :
  failed_request 401 unauthenticated_body = Some (Rejected (Error "Unauthenticated."))
  /\ failed_request 403 unauthenticated_body = Some (Rejected (Error "Unauthenticated."))
  /\ ~ (exists status_of : jserror -> Z,
          forall status e,
            failed_request status unauthenticated_body = Some (Rejected e) ->
            status_of e = status).
Proof.
  assert (H401 : failed_request 401 unauthenticated_body
                 = Some (Rejected (Error "Unauthenticated."))) by (vm_compute; reflexivity).
  assert (H403 : failed_request 403 unauthenticated_body
                 = Some (Rejected (Error "Unauthenticated."))) by (vm_compute; reflexivity).
  split_all; trivial.
  intros [status_of H]. pose proof (H _ _ H401) as A. pose proof (H _ _ H403) as B.
  congruence.
Qed.

(** C7, amended.  For every response with a status outside 200..299 whose
    body is JSON with a readable [message] property, [ApiService.request]
    rejects with an [Error] that carries a message only: the server's
    message converted to a string when it is truthy, and
    ["HTTP <status>"] otherwise. *)
Theorem request_error_message (h : Heap) (endpoint : string)
    (options : ApiService.Options) (status : Z) (data msg : jsval) (fuel : nat) :
  ApiService.ok status = false ->
  getprop data "message" = inr msg ->
  let w := play (6 + fuel)
                [Invoke (ApiService.request endpoint options);
                 Answer (Response status (Some data))] (boot h) in
  quiescent w
  /\ result 0 w
     = Some (Rejected (Error (if truthy msg then ToString (host h) msg
                              else "HTTP " ++ pretty status))).
Proof.
  intros Hok Hmsg w. subst w. destruct h as [url tok a m i rp hst].
  guided; freeze_lazy; split_all; reflexivity.
Qed.

Lemma request_error_message_witness :
  let w := play 6 [Invoke (ApiService.request "/user" ApiService.no_options);
                   Answer (Response 500 (Some (VObj [])))] (boot signed_in) in
  quiescent w /\ result 0 w = Some (Rejected (Error "HTTP 500")).
Proof.
  exact (request_error_message signed_in "/user" ApiService.no_options 500 (VObj []) VUndef 0
           eq_refl eq_refl).
Defined.

(* ------------------------------------------------------------------ *)
(** ** EnhancedApiService.request: refresh and retry *)




(* ------------------------------------------------------------------ *)
(** ** EnhancedApiService.initialize *)

(** C6, as stated, fails.  The application starts with a stored token and
    no expiry time; [initialize()] is called, and called again while the
    first call waits for the refresh: both calls read the stored token
    and both check its expiry.  Only the network refresh is shared. *)
Lemma concurrent_initialize_repeats_the_work :
  let w := play 60 [Invoke EnhancedApiService.initialize;
                    Invoke EnhancedApiService.initialize;
                    Answer (Response 200 (Some (token_envelope "t1")))]
                (boot cold_start) in
  result 0 w = Some (Fulfilled (VBool true))
  /\ result 1 w = Some (Fulfilled (VBool true))
  /\ calls "StorageService.getAuthToken" w = 2
  /\ calls "StorageService.isTokenExpired" w = 2
  /\ calls "EnhancedApiService.refreshToken" w = 2
  /\ calls "ApiService.refreshToken" w = 1.
Proof.
  vm_compute. split_all; reflexivity.
Qed.

(** C6, amended.  Once a call of [initialize()] has returned [true], the
    service is initialized and a second call is a no-op that returns
    [true]: it changes no field of the services, reads nothing from
    storage and dispatches no request.  (Calls made while the first one is
    still running each do the token restore and the expiry check
    themselves.) *)
Theorem initialize_once_initialized (h : Heap) (r : FetchResult) (fuel : nat) :
  let w1 := play (60 + fuel) [Invoke EnhancedApiService.initialize; Answer r] (boot h) in
  let w2 := play (60 + fuel) [Invoke EnhancedApiService.initialize; Answer r;
                              Invoke EnhancedApiService.initialize] (boot h) in
  refreshPromise h = None ->
  result 0 w1 = Some (Fulfilled (VBool true)) ->
  isInitialized (heap w1) = true
  /\ result 1 w2 = Some (Fulfilled (VBool true))
  /\ heap w2 = heap w1
  /\ trace w2 = trace w1 ++ [EvCall "EnhancedApiService.initialize" (promise_of 1)]
  /\ quiescent w2.
Proof.
  destruct h as [url tok a m i rp hst].
  intros w1 w2 Hr H; subst w1 w2. cbn [refreshPromise] in Hr; subst rp.
  destruct i.
  all: guided_in H; freeze_lazy_in H; try discriminate H.
  all: guided.
  all: guided.
  all: freeze_lazy; split_all; reflexivity.
Qed.

Lemma initialize_once_initialized_witness :
  let w1 := play 60 [Invoke EnhancedApiService.initialize;
                     Answer (Response 200 (Some (token_envelope "t1")))] (boot cold_start) in
  let w2 := play 60 [Invoke EnhancedApiService.initialize;
                     Answer (Response 200 (Some (token_envelope "t1")));
                     Invoke EnhancedApiService.initialize] (boot cold_start) in
  isInitialized (heap w1) = true
  /\ result 1 w2 = Some (Fulfilled (VBool true))
  /\ heap w2 = heap w1
  /\ trace w2 = trace w1 ++ [EvCall "EnhancedApiService.initialize" (promise_of 1)]
  /\ quiescent w2.
Proof.
  apply (initialize_once_initialized cold_start
           (Response 200 (Some (token_envelope "t1"))) 0).
  - reflexivity.
  - vm_compute. reflexivity.
Defined.

(* ------------------------------------------------------------------ *)
(** ** EnhancedApiService.getUserProfile *)

(** C8.  In every state where a profile (a truthy value) is stored,
    [getUserProfile(false)] dispatches no request, changes nothing and
    returns the stored profile in a success envelope.  With
    [forceRefresh] true, or with nothing stored, and no refresh in flight,
    the call always dispatches a request and waits for it; when the
    answer to [GET /user] is a success envelope that holds a user, that
    user is stored as the profile and the caller gets the answer.  (The
    answer [r0] is the one to the token refresh, in the states where
    initialization starts one.) *)
Theorem getUserProfile_reads_through_the_cache (h : Heap) (fuel : nat) :
  let stored := memoryStorage h !! StorageService.userProfile StorageService.keys in
  let call force := Invoke (EnhancedApiService.getUserProfile force) in
  (forall v,
      stored = Some v -> truthy v = true ->
      let w := play (60 + fuel) [call false] (boot h) in
      quiescent w
      /\ all_fetches w = 0
      /\ result 0 w = Some (Fulfilled (EnhancedApiService.cached_envelope "user" v))
      /\ heap w = h)
  /\ (forall force,
      refreshPromise h = None ->
      force = true \/ stored = None ->
      let w0 := play (60 + fuel) [call force] (boot h) in
      1 <= all_fetches w0
      /\ result 0 w0 = None
      /\ forall r0 status data user,
          ApiService.ok status = true ->
          ApiService.success_and data "user" = inr user ->
          truthy user = true ->
          let answer := Answer (Response status (Some data)) in
          (fetches "/refresh" w0 = 0 ->
           refreshed user data (play (60 + fuel) [call force; answer] (boot h)))
          /\ (fetches "/refresh" w0 <> 0 ->
              refreshed user data
                        (play (60 + fuel) [call force; Answer r0; answer] (boot h)))).
Proof.
  destruct h as [url tok a m i rp hst]. intros stored call; subst stored call.
  cbn [memoryStorage refreshPromise]. split.
  - intros v Hs Ht. freeze_lazy_in Hs.
    guided. freeze_lazy. rewrite ?Hs. split_all; reflexivity.
  - intros force -> Hmiss.
    assert (Hcache : force = true \/ force = false /\ m !! "gu_user_profile" = None).
    { destruct force; [left; reflexivity | right; split; [reflexivity|]].
      destruct Hmiss as [Hm|Hm]; [discriminate Hm | exact Hm]. }
    clear Hmiss.
    split_all.
    + destruct Hcache as [-> | [-> Hs]], i; guided; freeze_lazy; lia.
    + destruct Hcache as [-> | [-> Hs]], i; guided; freeze_lazy; reflexivity.
    + intros r0 status data user Hok Hsucc Htruthy.
      pose proof (success_and_truthy _ _ _ Hsucc Htruthy) as Hfield.
      split; intros Hw0.
      * destruct Hcache as [-> | [-> Hs]], i.
        all: guided_in Hw0; freeze_lazy_in Hw0; try discriminate Hw0.
        all: guided; freeze_lazy; split_all; try reflexivity.
        all: apply lookup_insert_eq.
      * destruct Hcache as [-> | [-> Hs]], i.
        all: guided_in Hw0; freeze_lazy_in Hw0; try (exfalso; apply Hw0; reflexivity).
        all: guided; freeze_lazy; split_all; try reflexivity.
        all: apply lookup_insert_eq.
Qed.

Lemma getUserProfile_reads_through_the_cache_witness :
  let call force := Invoke (EnhancedApiService.getUserProfile force) in
  let fresh := VObj [("id", VNum (num_of_Z 7)); ("name", VStr "Ana Maria")] in
  let data := VObj [("success", VBool true); ("data", VObj [("user", fresh)])] in
  result 0 (play 60 [call false] (boot signed_in))
  = Some (Fulfilled (EnhancedApiService.cached_envelope "user" sample_profile))
  /\ refreshed fresh data
               (play 60 [call true; Answer (Response 200 (Some data))] (boot signed_in)).
Proof.
  intros call fresh data.
  destruct (getUserProfile_reads_through_the_cache signed_in 0) as [Hhit Hmiss]. split.
  - apply (Hhit sample_profile); vm_compute; reflexivity.
  - destruct (Hmiss true eq_refl (or_introl eq_refl)) as (_ & _ & Hanswer).
    destruct (Hanswer (NetworkFailure (Error "unused")) 200%Z data fresh) as [Hdirect _];
      [reflexivity | reflexivity | reflexivity |].
    apply Hdirect. vm_compute. reflexivity.
Defined.

(* ------------------------------------------------------------------ *)
(** ** getHighestRoleLevel *)




(* ------------------------------------------------------------------ *)
(** ** ApiService.registerAnalyticsEvent *)

(** C10, at an input where it fails.  The event
    [{ device_uuid: "d", event_keyword: "e", latitude: NaN }] supplies a
    latitude that is not a number in [-90, 90]; the three tests of the
    validation are false on [NaN], so the event passes and the request is
    dispatched with it. *)
Theorem registerAnalyticsEvent_accepts_a_NaN_latitude (h : Heap) (fuel : nat) :
  let w := play (20 + fuel) [Invoke (ApiService.registerAnalyticsEvent nan_event)] (boot h) in
  result 0 w = None
  /\ all_fetches w = 1
  /\ trace w
     = [EvCall "ApiService.registerAnalyticsEvent" (promise_of 0);
        EvCall "ApiService.request" [0; 0; 0];
        EvFetch (mkRequest (baseURL h) "/analytics/register-event" "POST"
                           (ApiService.getHeaders true h) nan_event)].
Proof.
  destruct h as [url tok a m i rp hst].
  lazy. split_all; reflexivity.
Qed.

(* ------------------------------------------------------------------ *)
(** ** EnhancedApiService.refreshToken: one refresh in flight *)

(** C2.  No refresh is in flight; [refreshToken()] is called [n >= 2]
    times before the network answers the first call.  Whatever the
    answer, [apiService.refreshToken] is called once, one request is
    dispatched, and every one of the [n] callers gets the same outcome. *)
Theorem refreshToken_is_single_flight (h : Heap) (n : nat) (r : FetchResult) (fuel : nat) :
  refreshPromise h = None ->
  2 <= n ->
  let w := play (60 + 2 * n + fuel)
                (repeat (Invoke EnhancedApiService.refreshToken) n ++ [Answer r]) (boot h) in
  calls "ApiService.refreshToken" w = 1
  /\ all_fetches w = 1
  /\ fetches "/refresh" w = 1
  /\ exists o, forall i, i < n -> result i w = Some o.
Proof.
  intros Hrp Hn w. subst w.
  destruct n as [|[|k]]; [lia | lia |]. set (K := S k). clearbody K. clear Hn k.
  destruct (first_refresh_shape h Hrp) as (B1 & B2 & B3 & B4 & B5 & B6 & B7 & B8 & B9 & B10).
  cbn [repeat app play fold_left react].
  change (drain ?f (invoke ?c (boot h))) with (drain f (first_refresh h)).
  rewrite (drain_idle _ _ B3).
  change (fold_left (react ?f) ?a ?w) with (play f a w).
  rewrite play_app, (joined _ K _ B1 B2 B3 B4 B5 B6).
  cbn [play fold_left react]. unfold crowd.
  unfold calls, all_fetches, fetches in *.
  destruct h as [url tok a m i rp hst]. cbn [refreshPromise] in Hrp. subst rp.
  explore 60 [Answer r] (first_refresh (mkHeap url tok a m i None hst)) (@nil obs)
    ltac:(fun _ _ _ cs =>
      let W := constr:(crowd0 K (first_refresh (mkHeap url tok a m i None hst))) in
      settle_time 0 r cs W
        ltac:(fun t o =>
          let rest := constr:((61 - t) + fuel) in
          replace (60 + 2 * S K + fuel) with (t + (K + (S K + rest))) by lia;
          destruct (crowd_settles K t rest r
                      (trace (first_refresh (mkHeap url tok a m i None hst)) ++ crowd_events K)
                      W (reached (play_guided t [Answer r] cs W) W) o)
            as (F1 & F2 & F3 & F4 & F5);
          [ reflexivity
          | apply (play_by_choices t [Answer r] cs W); solve_duty
          | crowd_lazy; reflexivity
          | intros j; destruct j as [|[|[|[|j]]]]; crowd_lazy; reflexivity
          | intros j; destruct j as [|[|[|[|j]]]]; crowd_lazy; reflexivity
          | rewrite F5, !count_around_crowd by reflexivity;
            rewrite B7, B9, B10;
            split_all; [ crowd_lazy; reflexivity | crowd_lazy; reflexivity
                       | crowd_lazy; reflexivity
                       | exists o; intros j Hj; apply F1; exact Hj ] ])).
Qed.

Lemma refreshToken_is_single_flight_witness :
  let w := play (60 + 2 * 3 + 0)
                (repeat (Invoke EnhancedApiService.refreshToken) 3
                   ++ [Answer (Response 200 (Some (token_envelope "t1")))])
                (boot signed_in) in
  calls "ApiService.refreshToken" w = 1
  /\ all_fetches w = 1
  /\ fetches "/refresh" w = 1
  /\ exists o, forall i, i < 3 -> result i w = Some o.
Proof.
  apply (refreshToken_is_single_flight signed_in 3
           (Response 200 (Some (token_envelope "t1"))) 0).
  - reflexivity.
  - repeat constructor.
Defined.

(* ------------------------------------------------------------------ *)
(** * Further properties of the services *)

(* ------------------------------------------------------------------ *)
(** ** StorageService: the primitives *)

(** X1.  [getItem(key)] after [setItem(key, value)] resolves to the value
    if it is truthy, and to [null] if it is falsy: a stored [0], [false]
    or empty string reads back as absent. *)
Theorem getItem_after_setItem (h : Heap) (key : string) (value : jsval) (fuel : nat) :
  let w := play (8 + fuel)
                [Invoke (StorageService.setItem key value);
                 Invoke (StorageService.getItem key)] (boot h) in
  result 0 w = Some (Fulfilled (VBool true))
  /\ result 1 w = Some (Fulfilled (if truthy value then value else VNull))
  /\ memoryStorage (heap w) = <[key := value]> (memoryStorage h).
Proof.
  destruct h as [url tok a m i rp hst].
  guided.
  all: rewrite lookup_insert_eq in *; cbn [default] in *.
  all: freeze_lazy; use_facts; rewrite ?lookup_insert_eq; split_all; reflexivity.
Qed.

(** X2.  [removeItem(key)] makes [getItem(key)] resolve to [null] and
    does not change what [getItem] gives for any other key. *)
Theorem getItem_after_removeItem (h : Heap) (key other : string) (fuel : nat) :
  key <> other ->
  let before := play (8 + fuel) [Invoke (StorageService.getItem other)] (boot h) in
  let w := play (8 + fuel)
                [Invoke (StorageService.removeItem key);
                 Invoke (StorageService.getItem key);
                 Invoke (StorageService.getItem other)]
                (boot h) in
  result 0 w = Some (Fulfilled (VBool true))
  /\ result 1 w = Some (Fulfilled VNull)
  /\ result 2 w = result 0 before
  /\ memoryStorage (heap w) = delete key (memoryStorage h).
Proof.
  destruct h as [url tok a m i rp hst]. intros Hne before w; subst before w.
  guided.
  all: guided.
  all: rewrite ?lookup_delete_eq, ?lookup_delete_ne in * by congruence; cbn [default] in *.
  all: freeze_lazy; use_facts; rewrite ?lookup_delete_eq, ?lookup_delete_ne by congruence.
  all: refute.
  all: split_all; try reflexivity; try congruence.
Qed.

Lemma getItem_after_removeItem_witness :
  let w := play 8 [Invoke (StorageService.removeItem "gu_auth_token");
                   Invoke (StorageService.getItem "gu_auth_token");
                   Invoke (StorageService.getItem "gu_user_profile")]
                (boot signed_in) in
  result 1 w = Some (Fulfilled VNull) /\ result 2 w = Some (Fulfilled sample_profile).
Proof.
  destruct (getItem_after_removeItem signed_in "gu_auth_token" "gu_user_profile" 0)
    as (_ & H1 & H2 & _); [discriminate|].
  split; [exact H1|]. refine (eq_trans H2 _). vm_compute. reflexivity.
Defined.

(** X3.  After [clear()] every key reads as [null]. *)
Theorem clear_forgets_every_key (h : Heap) (key : string) (fuel : nat) :
  let w := play (8 + fuel) [Invoke StorageService.clear;
                            Invoke (StorageService.getItem key)] (boot h) in
  result 0 w = Some (Fulfilled (VBool true))
  /\ result 1 w = Some (Fulfilled VNull)
  /\ memoryStorage (heap w) = ∅.
Proof.
  destruct h as [url tok a m i rp hst].
  guided.
  all: rewrite ?lookup_empty in *; cbn [default] in *; refute.
  all: freeze_lazy; split_all; reflexivity.
Qed.

(** X4.  The four primitives never reject, in any state and for any key
    and value: [setItem], [removeItem] and [clear] resolve to [true] and
    [getItem] resolves to a value. *)
Theorem primitives_always_resolve (h : Heap) (key : string) (value : jsval) (fuel : nat) :
  let run call := result 0 (play (8 + fuel) [Invoke call] (boot h)) in
  run (StorageService.setItem key value) = Some (Fulfilled (VBool true))
  /\ run (StorageService.removeItem key) = Some (Fulfilled (VBool true))
  /\ run StorageService.clear = Some (Fulfilled (VBool true))
  /\ (exists v, run (StorageService.getItem key) = Some (Fulfilled v)).
Proof.
  destruct h as [url tok a m i rp hst]. intros run; subst run. cbn beta.
  split_all.
  - freeze_lazy. reflexivity.
  - freeze_lazy. reflexivity.
  - freeze_lazy. reflexivity.
  - guided; freeze_lazy; eexists; reflexivity.
Qed.

(** X5.  [isStorageWorking()] resolves to [true] in every state, and it
    leaves the store as it was except for the key [storage_test_key],
    which is gone afterwards even if the application had stored it. *)
Theorem isStorageWorking_drops_the_test_key (h : Heap) (fuel : nat) :
  let w := play (12 + fuel) [Invoke StorageService.isStorageWorking] (boot h) in
  result 0 w = Some (Fulfilled (VBool true))
  /\ memoryStorage (heap w) = delete "storage_test_key" (memoryStorage h)
  /\ quiescent w.
Proof.
  destruct h as [url tok a m i rp hst].
  guided.
  all: rewrite ?lookup_insert_eq in *; cbn [default] in *; refute.
  all: freeze_lazy; split_all; try reflexivity.
  apply delete_insert_eq.
Qed.

(* ------------------------------------------------------------------ *)
(** ** StorageService: the token expiry *)

(** X6.  [isTokenExpired()] changes nothing and resolves to [true] when
    no expiry time (or a falsy one) is stored; otherwise it compares the
    clock with the stored time, so a stored value that is not a date
    (its time is [NaN]) never counts as expired. *)
Theorem token_expiry_check (h : Heap) (fuel : nat) :
  let w := play (12 + fuel) [Invoke StorageService.isTokenExpired] (boot h) in
  let clock := num_of_Z (now (host h)) in
  let stored := memoryStorage h !! StorageService.tokenExpiry StorageService.keys in
  result 0 w
  = Some (Fulfilled (VBool
      match stored with
      | None => true
      | Some expiry =>
          if truthy expiry then num_gt clock (dateParse (host h) expiry) else true
      end))
  /\ heap w = h
  /\ (forall expiry,
        stored = Some expiry -> truthy expiry = true -> dateParse (host h) expiry = NaN ->
        result 0 w = Some (Fulfilled (VBool false))).
Proof.
  destruct h as [url tok a m i rp hst]. intros w clock stored.
  assert (Hres : result 0 w
                 = Some (Fulfilled (VBool
                     match stored with
                     | None => true
                     | Some expiry =>
                         if truthy expiry
                         then num_gt clock (dateParse hst expiry) else true
                     end))).
  { subst w clock stored. guided.
    all: freeze_lazy; cbn [ToNumber].
    all: destruct (m !! "gu_token_expiry") as [expiry|]; cbn [default] in *; refute.
    all: rewrite ?E; reflexivity. }
  split_all.
  - exact Hres.
  - subst w. guided; freeze_lazy; reflexivity.
  - intros expiry Hs Ht Hd. cbn [host] in Hd. rewrite Hres, Hs, Ht, Hd. reflexivity.
Qed.

(** X7.  [storeTokenExpiry(expiry)] stores the ISO string of a valid
    [Date] and any other value as it is; on an invalid [Date] it rejects
    with a [RangeError] and stores nothing. *)
Theorem storeTokenExpiry_by_kind (h : Heap) (expiry : jsval) (fuel : nat) :
  let keys := StorageService.keys in
  let w := play (12 + fuel) [Invoke (StorageService.storeTokenExpiry expiry)] (boot h) in
  match expiry with
  | VDate (Finite t) =>
      result 0 w = Some (Fulfilled (VBool true))
      /\ memoryStorage (heap w)
         = <[StorageService.tokenExpiry keys := VStr (toISOString (host h) t)]>
             (memoryStorage h)
  | VDate _ =>
      result 0 w = Some (Rejected (RangeError "Invalid time value"))
      /\ heap w = h
  | _ =>
      result 0 w = Some (Fulfilled (VBool true))
      /\ memoryStorage (heap w)
         = <[StorageService.tokenExpiry keys := expiry]> (memoryStorage h)
  end.
Proof.
  destruct h as [url tok a m i rp hst].
  destruct expiry as [| |b|n|s|fields|items|[t| | |]]; freeze_lazy; split; reflexivity.
Qed.

(* ------------------------------------------------------------------ *)
(** ** StorageService.getStorageInfo *)

Lemma key_list_NoDup : NoDup StorageService.key_list.
Proof. apply (bool_decide_unpack _). vm_compute. exact I. Qed.

Lemma NoDup_List_filter {A} (f : A -> bool) (l : list A) :
  NoDup l -> NoDup (List.filter f l).
Proof.
  induction 1 as [|x l Hx Hl IH]; cbn [List.filter]; [constructor|].
  destruct (f x); [|exact IH]. constructor; [|exact IH].
  intros Hin. apply Hx. apply list_elem_of_In. apply list_elem_of_In in Hin.
  apply List.filter_In in Hin as [Hin _]. exact Hin.
Qed.

Lemma known_keys_bound (m : gmap string jsval) :
  List.length (List.filter (StorageService.has_key m) StorageService.key_list) <= size m
  /\ List.length (List.filter (StorageService.has_key m) StorageService.key_list) <= 7.
Proof.
  split.
  - rewrite <- size_dom, <- (size_list_to_set (C := gset string)).
    + apply subseteq_size. intros k Hk. apply elem_of_list_to_set in Hk.
      apply list_elem_of_In, List.filter_In in Hk as [_ Hk].
      unfold StorageService.has_key in Hk.
      apply elem_of_dom. destruct (m !! k); [eauto | discriminate].
    + apply NoDup_List_filter, key_list_NoDup.
  - etransitivity; [apply List.filter_length_le | reflexivity].
Qed.

(** X8.  [getStorageInfo()] changes nothing and resolves to the counts of
    the store: [totalKeys] is its size, [authKeys] is at most 7 and at
    most [totalKeys], so that [otherKeys] is never negative. *)
Theorem getStorageInfo_counts (h : Heap) (fuel : nat) :
  let w := play (8 + fuel) [Invoke StorageService.getStorageInfo] (boot h) in
  exists total auth : Z,
    result 0 w
    = Some (Fulfilled (VObj [("totalKeys", VNum (num_of_Z total));
                             ("authKeys", VNum (num_of_Z auth));
                             ("otherKeys", VNum (num_of_Z (total - auth)));
                             ("secureStoreAvailable", VBool false)]))
    /\ total = Z.of_nat (size (memoryStorage h))
    /\ (0 <= auth <= 7)%Z
    /\ (0 <= total - auth)%Z
    /\ heap w = h.
Proof.
  destruct h as [url tok a m i rp hst]. intros w.
  exists (Z.of_nat (size m)),
         (Z.of_nat (List.length
                      (List.filter (StorageService.has_key m) StorageService.key_list))).
  destruct (known_keys_bound m) as [H1 H2].
  split_all; try lia; try reflexivity.
Qed.

(* ------------------------------------------------------------------ *)
(** ** ApiService.request and the token *)

(** X9.  [ApiService.request] dispatches exactly one request, with the
    bearer token exactly when [requireAuth] is not false and a token is
    set, and it never changes a field of the services.  A network error is
    passed on as it is; a body that does not parse rejects with a
    [SyntaxError] whatever the status; a parsed body is the result when
    the status is 200..299 and a rejection otherwise. *)
Theorem request_outcomes (h : Heap) (endpoint : string) (options : ApiService.Options)
    (r : FetchResult) (fuel : nat) :
  let w := play (6 + fuel) [Invoke (ApiService.request endpoint options); Answer r] (boot h) in
  quiescent w
  /\ heap w = h
  /\ List.filter is_any_fetch (trace w) = [EvFetch (request_of h endpoint options)]
  /\ match r with
     | NetworkFailure e => result 0 w = Some (Rejected e)
     | Response status None =>
         exists e, result 0 w = Some (Rejected e) /\ kind e = KSyntaxError
     | Response status (Some data) =>
         if ApiService.ok status then result 0 w = Some (Fulfilled data)
         else exists e, result 0 w = Some (Rejected e)
     end.
Proof.
  destruct h as [url tok a m i rp hst].
  guided; freeze_lazy; use_facts; split_all; try reflexivity.
  all: try (eexists; split_all; reflexivity).
  all: destruct (ApiService.ok status); try discriminate; try reflexivity.
  all: eexists; reflexivity.
Qed.

(** X10.  The flag [isAuthenticated] of ApiService says whether a truthy
    token is set, and [login], [logout] and [refreshToken], of the plain
    and of the enhanced service, keep it so whatever the network answers;
    in such a state [isUserAuthenticated()] is the truthiness of the
    token. *)
Theorem token_flag_follows_the_token (h : Heap) (credentials : jsval) (r : FetchResult)
    (fuel : nat) :
  consistent h ->
  let after call := heap (play (40 + fuel) [Invoke call; Answer r] (boot h)) in
  consistent (after (ApiService.login credentials))
  /\ consistent (after ApiService.logout)
  /\ consistent (after ApiService.refreshToken)
  /\ consistent (after (EnhancedApiService.login credentials))
  /\ consistent (after EnhancedApiService.logout)
  /\ ApiService.isUserAuthenticated h = truthy (token h).
Proof.
  destruct h as [url tok a m i rp hst]. intros Hc after; subst after.
  unfold consistent, ApiService.isUserAuthenticated in *.
  cbn [isAuthenticated token] in Hc. cbn beta.
  split_all.
  1-5: guided; freeze_lazy; use_facts;
       first [ exact Hc | reflexivity | symmetry; assumption ].
  cbn [isAuthenticated token]. rewrite Hc. apply andb_diag.
Qed.

Lemma token_flag_follows_the_token_witness :
  consistent (heap (play 40 [Invoke ApiService.logout;
                             Answer (Response 200 (Some (VObj [("success", VBool true)])))]
                         (boot signed_in))).
Proof.
  destruct (token_flag_follows_the_token signed_in VNull
              (Response 200 (Some (VObj [("success", VBool true)]))) 0)
    as (_ & H & _); [reflexivity | exact H].
Defined.

(* ------------------------------------------------------------------ *)
(** ** ApiService.registerAnalyticsEvent *)


Lemma out_of_range_finite (hst : Host) (q : Q) (lo hi : Z) :
  ApiService.out_of_range hst (VNum (Finite q)) lo hi = true
  <-> (q < inject_Z lo \/ inject_Z hi < q)%Q.
Proof.
  unfold ApiService.out_of_range, num_gt, num_lt, num_of_Z.
  cbn [typeof ToNumber String.eqb negb orb].
  change (String.eqb "number" "number") with true. cbn [negb orb].
  rewrite orb_true_iff, !Qlt_alt.
  destruct (q ?= inject_Z lo)%Q, (inject_Z hi ?= q)%Q;
    split; intros [H|H]; try discriminate H; auto.
Qed.

(** X12.  The bounds of the latitude are inclusive: an event whose
    latitude is a finite number is rejected, before any request, exactly
    when the latitude is below -90 or above 90. *)
Theorem latitude_is_checked_against_its_range (h : Heap) (q : Q) (fuel : nat) :
  let w := play (20 + fuel)
                [Invoke (ApiService.registerAnalyticsEvent (located_event (Finite q)))]
                (boot h) in
  ((q < -90 \/ 90 < q)%Q ->
   result 0 w = Some (Rejected (Error "latitude must be a number between -90 and 90"))
   /\ all_fetches w = 0)
  /\ ((-90 <= q <= 90)%Q -> result 0 w = None /\ all_fetches w = 1).
Proof.
  destruct h as [url tok a m i rp hst]. intros w; subst w.
  destruct (ApiService.out_of_range hst (VNum (Finite q)) (-90) 90) eqn:Hr.
  - split.
    + intros _. guided; freeze_lazy; split; reflexivity.
    + intros [H1 H2]. apply out_of_range_finite in Hr.
      change (inject_Z (-90)) with (-90)%Q in Hr. change (inject_Z 90) with 90%Q in Hr.
      exfalso. destruct Hr as [Hr|Hr].
      * apply Qlt_not_le in Hr. contradiction.
      * apply Qlt_not_le in Hr. contradiction.
  - split.
    + intros Hq. exfalso.
      assert (ApiService.out_of_range hst (VNum (Finite q)) (-90) 90 = true)
        by (apply out_of_range_finite; exact Hq).
      congruence.
    + intros _. guided; freeze_lazy; split; reflexivity.
Qed.

Lemma latitude_is_checked_against_its_range_witness :
  let w := play 20 [Invoke (ApiService.registerAnalyticsEvent (located_event (Finite 95)))]
                (boot signed_out) in
  result 0 w = Some (Rejected (Error "latitude must be a number between -90 and 90"))
  /\ all_fetches w = 0.
Proof.
  apply (proj1 (latitude_is_checked_against_its_range signed_out 95 0)).
  right. reflexivity.
Defined.

(* ------------------------------------------------------------------ *)
(** ** ApiService: the validators *)

Lemma chars_app (s t : string) :
  list_ascii_of_string (s ++ t) = list_ascii_of_string s ++ list_ascii_of_string t.
Proof. induction s as [|c s IH]; simpl; [reflexivity | rewrite IH; reflexivity]. Qed.

Lemma chars_length (s : string) : List.length (list_ascii_of_string s) = String.length s.
Proof. induction s as [|c s IH]; simpl; [reflexivity | rewrite IH; reflexivity]. Qed.

Lemma has_char_app (cls : ascii -> bool) (s t : string) :
  ApiService.has_char cls (s ++ t) = ApiService.has_char cls s || ApiService.has_char cls t.
Proof. unfold ApiService.has_char. rewrite chars_app. apply existsb_app. Qed.

Lemma length_append (s t : string) :
  String.length (s ++ t) = String.length s + String.length t.
Proof. rewrite <- !chars_length, chars_app. apply length_app. Qed.

(** X13.  [validatePassword] accepts a password exactly when it has at
    least eight characters and contains an upper-case letter, a
    lower-case letter, a digit and one of the listed special characters;
    so a password stays valid when characters are added before or after
    it. *)
Theorem validatePassword_spec (password : string) :
  let chars := list_ascii_of_string password in
  let valid s := ApiService.isValid (ApiService.validatePassword s) in
  (valid password = true
   <-> 8 <= String.length password
       /\ (exists c, In c chars /\ ApiService.code_in 65 90 c = true)
       /\ (exists c, In c chars /\ ApiService.code_in 97 122 c = true)
       /\ (exists c, In c chars /\ ApiService.code_in 48 57 c = true)
       /\ (exists c, In c chars /\ ApiService.is_special c = true))
  /\ (forall more : string,
         valid password = true ->
         valid (password ++ more)%string = true /\ valid (more ++ password)%string = true).
Proof.
  intros chars valid. subst chars valid. unfold ApiService.validatePassword.
  cbn [ApiService.isValid]. split.
  - rewrite !andb_true_iff, Nat.leb_le. unfold ApiService.has_char.
    rewrite !existsb_exists. tauto.
  - intros more. rewrite !has_char_app, !length_append, !andb_true_iff, !Nat.leb_le.
    intros ((((Hl & Hu) & Hlo) & Hn) & Hs). rewrite Hu, Hlo, Hn, Hs, !orb_true_r.
    cbn [orb]. split_all; try reflexivity; lia.
Qed.

Section Email.
Import ApiService.

Lemma lang_void_inv s : lang Void s -> False.
Proof. inversion 1. Qed.

Lemma lang_eps_inv s : lang Eps s -> s = [].
Proof. inversion 1; reflexivity. Qed.

Lemma lang_cls_inv p s : lang (Cls p) s -> exists c, s = [c] /\ p c = true.
Proof. inversion 1; subst; eauto. Qed.

Lemma lang_cat_inv r1 r2 s :
  lang (Cat r1 r2) s -> exists s1 s2, s = s1 ++ s2 /\ lang r1 s1 /\ lang r2 s2.
Proof. inversion 1; subst; eauto. Qed.

Lemma lang_alt_inv r1 r2 s : lang (Alt r1 r2) s -> lang r1 s \/ lang r2 s.
Proof. inversion 1; subst; auto. Qed.

Lemma nullable_spec (r : regex) : nullable r = true <-> lang r [].
Proof.
  induction r as [| |p|r1 IH1 r2 IH2|r1 IH1 r2 IH2|r IH]; cbn [nullable].
  - split; [discriminate | intros H; destruct (lang_void_inv _ H)].
  - split; [constructor | reflexivity].
  - split; [discriminate|]. intros H. apply lang_cls_inv in H as (c & E & _). discriminate.
  - rewrite andb_true_iff, IH1, IH2. split.
    + intros [H1 H2]. exact (lang_cat _ _ [] [] H1 H2).
    + intros H. apply lang_cat_inv in H as (s1 & s2 & E & H1 & H2).
      symmetry in E. apply app_eq_nil in E as [-> ->]. split; assumption.
  - rewrite orb_true_iff, IH1, IH2. split.
    + intros [H|H]; [apply lang_alt_l | apply lang_alt_r]; exact H.
    + apply lang_alt_inv.
  - split; [constructor | reflexivity].
Qed.

Lemma star_cons_inv (r : regex) (c : ascii) (s : list ascii) :
  lang (Star r) (c :: s) ->
  exists s1 s2, s = s1 ++ s2 /\ lang r (c :: s1) /\ lang (Star r) s2.
Proof.
  intros H. remember (Star r) as r' eqn:Er. remember (c :: s) as s' eqn:Es.
  revert s Es. induction H as [| | | | | |r0 s1 s2 H1 _ H2 IH2]; intros t Et; try discriminate.
  injection Er as ->. destruct s1 as [|c1 s1].
  - cbn [app] in Et. apply IH2; [reflexivity | exact Et].
  - cbn [app] in Et. injection Et as Ec Et. subst c1 t. exists s1, s2. split_all; auto.
Qed.

(** The derivative by [c] matches [s] exactly when the expression
    matches [c :: s]. *)
Lemma deriv_spec (r : regex) (c : ascii) :
  forall s, lang (deriv c r) s <-> lang r (c :: s).
Proof.
  induction r as [| |p|r1 IH1 r2 IH2|r1 IH1 r2 IH2|r IH]; intros s; cbn [deriv].
  - split; intros H; destruct (lang_void_inv _ H).
  - split; intros H; [destruct (lang_void_inv _ H) | apply lang_eps_inv in H; discriminate].
  - destruct (p c) eqn:E; split; intros H.
    + apply lang_eps_inv in H as ->. constructor. exact E.
    + apply lang_cls_inv in H as (c' & [= -> ->] & _). constructor.
    + destruct (lang_void_inv _ H).
    + apply lang_cls_inv in H as (c' & [= -> ->] & H). congruence.
  - assert (Hcat : lang (Cat (deriv c r1) r2) s -> lang (Cat r1 r2) (c :: s)).
    { intros H. apply lang_cat_inv in H as (s1 & s2 & -> & H1 & H2).
      apply IH1 in H1. exact (lang_cat _ _ (c :: s1) s2 H1 H2). }
    assert (Hinv : lang (Cat r1 r2) (c :: s) ->
                   lang (Cat (deriv c r1) r2) s \/ (lang r1 [] /\ lang r2 (c :: s))).
    { intros H. apply lang_cat_inv in H as (s1 & s2 & E & H1 & H2).
      destruct s1 as [|c1 s1]; cbn [app] in E.
      - right. subst s2. split; assumption.
      - injection E as Ec E. subst c1 s. left.
        apply lang_cat; [apply IH1; exact H1 | exact H2]. }
    destruct (nullable r1) eqn:N; split.
    + intros H. apply lang_alt_inv in H as [H|H]; [auto|].
      apply (lang_cat _ _ [] (c :: s)); [apply nullable_spec; exact N | apply IH2; assumption].
    + intros H. destruct (Hinv H) as [H'|[_ H']];
        [apply lang_alt_l; exact H' | apply lang_alt_r; apply IH2; exact H'].
    + exact Hcat.
    + intros H. destruct (Hinv H) as [H'|[H' _]]; [exact H'|].
      apply nullable_spec in H'. congruence.
  - split; intros H; apply lang_alt_inv in H as [H|H];
      solve [apply lang_alt_l; apply IH1; exact H | apply lang_alt_r; apply IH2; exact H].
  - split.
    + intros H. apply lang_cat_inv in H as (s1 & s2 & -> & H1 & H2). apply IH in H1.
      exact (lang_star_cons _ (c :: s1) s2 H1 H2).
    + intros H. apply star_cons_inv in H as (s1 & s2 & -> & H1 & H2).
      apply lang_cat; [apply IH; exact H1 | exact H2].
Qed.

(** The matcher decides the language of the expression. *)
Lemma test_spec (r : regex) (s : string) :
  test r s = true <-> lang r (list_ascii_of_string s).
Proof.
  unfold test. generalize (list_ascii_of_string s) as l. clear s. intros l. revert r.
  induction l as [|c l IH]; intros r; cbn [fold_left].
  - apply nullable_spec.
  - rewrite IH. apply deriv_spec.
Qed.

Lemma lang_star_cls (p : ascii -> bool) (s : list ascii) :
  lang (Star (Cls p)) s <-> forallb p s = true.
Proof.
  split.
  - intros H. remember (Star (Cls p)) as r eqn:Er.
    induction H as [| | | | | |r0 s1 s2 H1 _ H2 IH2]; try discriminate; [reflexivity|].
    injection Er as ->. apply lang_cls_inv in H1 as (c & -> & Hc). cbn [app forallb].
    rewrite IH2 by reflexivity. rewrite andb_true_r. assumption.
  - induction s as [|c s IH]; cbn [forallb]; [constructor|].
    rewrite andb_true_iff. intros [Hc Hs].
    exact (lang_star_cons _ [c] s (lang_cls p c Hc) (IH Hs)).
Qed.

Lemma lang_plus_cls (p : ascii -> bool) (s : list ascii) :
  lang (Plus (Cls p)) s <-> s <> [] /\ forallb p s = true.
Proof.
  unfold Plus. split.
  - intros H. apply lang_cat_inv in H as (s1 & s2 & -> & H1 & H2).
    apply lang_cls_inv in H1 as (c & -> & Hc).
    apply lang_star_cls in H2. cbn [app forallb]. rewrite H2, andb_true_r.
    split; [discriminate | assumption].
  - intros [Hne Hall]. destruct s as [|c s]; [congruence|].
    cbn [forallb] in Hall. apply andb_true_iff in Hall as [Hc Hs].
    apply (lang_cat _ _ [c] s); [constructor; exact Hc | apply lang_star_cls; exact Hs].
Qed.

Lemma lang_char (x : ascii) (s : list ascii) : lang (Cls (is_char x)) s <-> s = [x].
Proof.
  split.
  - intros H. apply lang_cls_inv in H as (c & -> & Hc). unfold is_char in Hc.
    apply Ascii.eqb_eq in Hc. congruence.
  - intros ->. constructor. unfold is_char. apply Ascii.eqb_refl.
Qed.

(** X14.  [validateEmail] accepts exactly the texts of the shape
    local [@] domain [.] rest, where each of the three parts is a
    non-empty run of characters that are neither white space nor the at
    sign (the domain and the rest may contain further dots). *)
Theorem validateEmail_spec (email : string) :
  validateEmail email = true
  <-> exists loc domain tld,
        list_ascii_of_string email = loc ++ "@"%char :: domain ++ "."%char :: tld
        /\ email_part loc /\ email_part domain /\ email_part tld.
Proof.
  unfold validateEmail. rewrite test_spec. unfold emailRegex, email_part. split.
  - intros H.
    apply lang_cat_inv in H as (l1 & s1 & -> & H1 & H).
    apply lang_cat_inv in H as (l2 & s2 & -> & H2 & H).
    apply lang_cat_inv in H as (l3 & s3 & -> & H3 & H).
    apply lang_cat_inv in H as (l4 & s4 & -> & H4 & H5).
    apply lang_plus_cls in H1, H3, H5. apply lang_char in H2, H4. subst.
    exists l1, l3, s4. cbn [app]. split_all; tauto.
  - intros (loc & domain & tld & -> & H1 & H2 & H3).
    apply lang_cat; [apply lang_plus_cls; exact H1|].
    apply (lang_cat _ _ ["@"%char]); [apply lang_char; reflexivity|].
    apply lang_cat; [apply lang_plus_cls; exact H2|].
    apply (lang_cat _ _ ["."%char]); [apply lang_char; reflexivity|].
    apply lang_plus_cls; exact H3.
Qed.

End Email.

(* ------------------------------------------------------------------ *)
(** ** EnhancedApiService: the session *)

Section Session.
Import StorageService.

(** X15.  A successful [login] (a 2xx answer whose envelope has a truthy
    [success] and a truthy [data.token]) resolves with the envelope,
    sets the token and the flag of ApiService, and stores the token, the
    user and an expiry time twenty-four hours ahead; it sends one
    unauthenticated [POST /login] carrying the credentials. *)
Theorem login_persists_the_session (h : Heap) (credentials response s d tok user : jsval)
    (status : Z) (fuel : nat) :
  ApiService.ok status = true ->
  getprop response "success" = inr s -> truthy s = true ->
  getprop response "data" = inr d ->
  getprop d "token" = inr tok -> truthy tok = true ->
  getprop d "user" = inr user ->
  let w := play (40 + fuel) [Invoke (EnhancedApiService.login credentials);
                             Answer (Response status (Some response))] (boot h) in
  let expiry := VStr (toISOString (host h) (inject_Z (addHours (host h) (now (host h)) 24))) in
  quiescent w
  /\ result 0 w = Some (Fulfilled response)
  /\ token (heap w) = tok
  /\ isAuthenticated (heap w) = true
  /\ memoryStorage (heap w)
     = <[tokenExpiry keys := expiry]>
         (<[userProfile keys := user]> (<[authToken keys := tok]> (memoryStorage h)))
  /\ List.filter is_any_fetch (trace w)
     = [EvFetch (mkRequest (baseURL h) "/login" "POST" None credentials)].
Proof.
  destruct h as [url tk a m i rp hst]. intros Hok Hs Hts Hd Htok Httok Huser.
  destruct (envelope_field response s d "token" Hs Hts Hd) as [F1 F2].
  destruct (envelope_field response s d "user" Hs Hts Hd) as [F3 F4].
  rewrite Htok in F1, F2. rewrite Huser in F3, F4.
  guided; freeze_lazy; use_facts; split_all; reflexivity.
Qed.

Lemma login_persists_the_session_witness :
  token (heap (play 40 [Invoke (EnhancedApiService.login VNull);
                        Answer (Response 200 (Some login_envelope))] (boot signed_out)))
  = VStr "t1".
Proof.
  refine (proj1 (proj2 (proj2
    (login_persists_the_session signed_out VNull login_envelope (VBool true)
       (VObj [("token", VStr "t1"); ("user", sample_profile)]) (VStr "t1") sample_profile
       200 0 _ _ _ _ _ _ _)))); reflexivity.
Defined.

(** X16.  A [login] that the server answers with a falsy [success]
    resolves with that envelope and changes nothing: no token is set and
    nothing is stored. *)
Theorem login_refused_persists_nothing (h : Heap) (credentials response s : jsval)
    (status : Z) (fuel : nat) :
  ApiService.ok status = true ->
  getprop response "success" = inr s -> truthy s = false ->
  let w := play (40 + fuel) [Invoke (EnhancedApiService.login credentials);
                             Answer (Response status (Some response))] (boot h) in
  quiescent w /\ result 0 w = Some (Fulfilled response) /\ heap w = h.
Proof.
  destruct h as [url tk a m i rp hst]. intros Hok Hs Hts.
  assert (F : ApiService.success_and response "token" = inr s)
    by (unfold ApiService.success_and; rewrite Hs, Hts; reflexivity).
  guided; freeze_lazy; use_facts; split_all; reflexivity.
Qed.

Lemma login_refused_persists_nothing_witness :
  heap (play 40 [Invoke (EnhancedApiService.login VNull);
                 Answer (Response 200 (Some refusal))] (boot signed_out))
  = signed_out.
Proof.
  refine (proj2 (proj2
    (login_refused_persists_nothing signed_out VNull refusal (VBool false) 200 0 _ _ _)));
    reflexivity.
Defined.

(** X17.  A refresh that has been answered, whatever the answer, is
    settled and has cleared [refreshPromise]; so a refresh asked for
    afterwards is a new flight with a request of its own. *)
Theorem refresh_ends_its_flight (h : Heap) (r r' : FetchResult) (fuel : nat) :
  refreshPromise h = None ->
  let once := play (40 + fuel) [Invoke EnhancedApiService.refreshToken; Answer r] (boot h) in
  let twice := play (40 + fuel)
                    [Invoke EnhancedApiService.refreshToken; Answer r;
                     Invoke EnhancedApiService.refreshToken; Answer r'] (boot h) in
  quiescent once
  /\ refreshPromise (heap once) = None
  /\ (exists o, result 0 once = Some o)
  /\ calls "ApiService.refreshToken" twice = 2
  /\ fetches "/refresh" twice = 2.
Proof.
  destruct h as [url tk a m i rp hst]. intros Hr once twice.
  cbn [refreshPromise] in Hr. subst rp once twice.
  guided.
  all: guided.
  all: freeze_lazy; split_all; try reflexivity; try (eexists; reflexivity).
Qed.

Lemma refresh_ends_its_flight_witness :
  fetches "/refresh"
          (play 40 [Invoke EnhancedApiService.refreshToken;
                    Answer (Response 200 (Some (token_envelope "t1")));
                    Invoke EnhancedApiService.refreshToken;
                    Answer (Response 200 (Some (token_envelope "t2")))] (boot signed_in))
  = 2.
Proof.
  refine (proj2 (proj2 (proj2 (proj2
    (refresh_ends_its_flight signed_in (Response 200 (Some (token_envelope "t1")))
       (Response 200 (Some (token_envelope "t2"))) 0 _))))); reflexivity.
Defined.

(** X18.  A successful refresh replaces the token in memory and in
    storage and stores a new expiry time twenty-four hours ahead. *)
Theorem refresh_success_renews_the_session (h : Heap) (response s d tok : jsval)
    (status : Z) (fuel : nat) :
  refreshPromise h = None ->
  ApiService.ok status = true ->
  getprop response "success" = inr s -> truthy s = true ->
  getprop response "data" = inr d ->
  getprop d "token" = inr tok -> truthy tok = true ->
  let w := play (40 + fuel) [Invoke EnhancedApiService.refreshToken;
                             Answer (Response status (Some response))] (boot h) in
  let expiry := VStr (toISOString (host h) (inject_Z (addHours (host h) (now (host h)) 24))) in
  result 0 w = Some (Fulfilled response)
  /\ token (heap w) = tok
  /\ isAuthenticated (heap w) = true
  /\ memoryStorage (heap w)
     = <[tokenExpiry keys := expiry]> (<[authToken keys := tok]> (memoryStorage h)).
Proof.
  destruct h as [url tk a m i rp hst]. cbn [refreshPromise].
  intros -> Hok Hs Hts Hd Htok Httok.
  destruct (envelope_field response s d "token" Hs Hts Hd) as [F1 F2].
  rewrite Htok in F1, F2.
  guided; freeze_lazy; use_facts; split_all; reflexivity.
Qed.

Lemma refresh_success_renews_the_session_witness :
  token (heap (play 40 [Invoke EnhancedApiService.refreshToken;
                        Answer (Response 200 (Some (token_envelope "t1")))]
                    (boot signed_in)))
  = VStr "t1".
Proof.
  refine (proj1 (proj2
    (refresh_success_renews_the_session signed_in (token_envelope "t1") (VBool true)
       (VObj [("token", VStr "t1")]) (VStr "t1") 200 0 _ _ _ _ _ _ _))); reflexivity.
Defined.



(** X20.  Once initialized and with no refresh in flight, the enhanced
    [request] is the plain one whenever the plain one resolves, or
    rejects with a message without [401], or rejects on an endpoint
    called with [requireAuth: false]: same outcome, one request, no
    refresh, no logout, no field changed. *)
Theorem request_passes_other_outcomes_through (h : Heap) (endpoint : string)
    (options : ApiService.Options) (r : FetchResult) (fuel : nat) :
  isInitialized h = true ->
  refreshPromise h = None ->
  let api := play (40 + fuel) [Invoke (ApiService.request endpoint options); Answer r]
                  (boot h) in
  let w := play (40 + fuel) [Invoke (EnhancedApiService.request endpoint options); Answer r]
                (boot h) in
  match result 0 api with
  | Some (Fulfilled _) => untouched h api w
  | Some (Rejected e) =>
      includes (message e) "401" && ApiService.requires_auth options = false ->
      untouched h api w
  | None => False
  end.
Proof.
  destruct h as [url tk a m i rp hst]. intros Hi Hr api w.
  cbn [isInitialized refreshPromise] in Hi, Hr.
  subst i rp api w. unfold untouched.
  guided.
  all: guided.
  all: freeze_lazy; try intros H401; try congruence; split_all; reflexivity.
Qed.

Lemma request_passes_other_outcomes_through_witness :
  untouched signed_in
    (play 40 [Invoke (ApiService.request "/user" ApiService.no_options);
              Answer (Response 200 (Some sample_profile))] (boot signed_in))
    (play 40 [Invoke (EnhancedApiService.request "/user" ApiService.no_options);
              Answer (Response 200 (Some sample_profile))] (boot signed_in)).
Proof.
  refine (request_passes_other_outcomes_through signed_in "/user" ApiService.no_options
            (Response 200 (Some sample_profile)) 0 _ _); reflexivity.
Defined.

(** X21.  When the call of [logout] to the server fails, the cleanup
    still runs, once; it stops at the missing [removeTokenExpiry], so the
    caller gets that [TypeError], the stored token and refresh token are
    removed, and the token of ApiService stays set. *)
Theorem logout_on_a_failed_call (h : Heap) (e : jserror) (fuel : nat) :
  let w := play (20 + fuel) [Invoke EnhancedApiService.logout; Answer (NetworkFailure e)]
                (boot h) in
  quiescent w
  /\ result 0 w = Some (Rejected not_a_function)
  /\ calls "StorageService.clearAuthData" w = 1
  /\ token (heap w) = token h
  /\ isAuthenticated (heap w) = isAuthenticated h
  /\ memoryStorage (heap w)
     = delete (refreshToken keys) (delete (authToken keys) (memoryStorage h)).
Proof.
  destruct h as [url tk a m i rp hst].
  guided; freeze_lazy; split_all; reflexivity.
Qed.

(** X22.  [initialize] never rejects: whatever is stored and whatever
    the network answers, it resolves with a boolean, and with [true] only
    when the service is marked initialized; the base URL is the
    configured one unless the service was initialized before. *)
Theorem initialize_never_rejects (h : Heap) (r : FetchResult) (fuel : nat) :
  refreshPromise h = None ->
  let w := play (60 + fuel) [Invoke EnhancedApiService.initialize; Answer r] (boot h) in
  quiescent w
  /\ (exists b, result 0 w = Some (Fulfilled (VBool b))
                /\ (b = true -> isInitialized (heap w) = true))
  /\ baseURL (heap w)
     = (if isInitialized h then baseURL h else EnhancedApiService.config_baseURL).
Proof.
  destruct h as [url tk a m i rp hst]. intros Hr w. cbn [refreshPromise] in Hr. subst rp w.
  destruct i.
  all: guided; freeze_lazy; split_all; try reflexivity.
  all: eexists; split; [reflexivity | try discriminate; reflexivity].
Qed.

Lemma initialize_never_rejects_witness :
  quiescent (play 60 [Invoke EnhancedApiService.initialize;
                      Answer (Response 401 (Some unauthenticated_body))] (boot cold_start)).
Proof.
  refine (proj1 (initialize_never_rejects cold_start
                   (Response 401 (Some unauthenticated_body)) 0 _)); reflexivity.
Defined.

(** X23.  With no token stored, the first [initialize] sends nothing: it
    sets the base URL and the flag, changes nothing else and resolves
    with [true]. *)
Theorem initialize_without_a_stored_token (h : Heap) (fuel : nat) :
  isInitialized h = false ->
  memoryStorage h !! authToken keys = None ->
  let w := play (60 + fuel) [Invoke EnhancedApiService.initialize] (boot h) in
  quiescent w
  /\ result 0 w = Some (Fulfilled (VBool true))
  /\ all_fetches w = 0
  /\ heap w = with_isInitialized true (with_baseURL EnhancedApiService.config_baseURL h).
Proof.
  destruct h as [url tk a m i rp hst]. intros Hi Hs w.
  cbn [isInitialized memoryStorage] in Hi, Hs. subst i w. freeze_lazy_in Hs.
  guided; freeze_lazy; split_all; reflexivity.
Qed.

Lemma initialize_without_a_stored_token_witness :
  result 0 (play 60 [Invoke EnhancedApiService.initialize] (boot first_launch))
  = Some (Fulfilled (VBool true)).
Proof.
  refine (proj1 (proj2 (initialize_without_a_stored_token first_launch 0 _ _)));
    vm_compute; reflexivity.
Defined.

(** X24.  With truthy roles and permissions in storage, [getUserRoles]
    and [getUserPermissions] without [forceRefresh] answer from storage:
    no request, no change, and the envelope [{ success: true, data }]
    around the stored value. *)
Theorem cached_roles_and_permissions (h : Heap) (roles permissions : jsval) (fuel : nat) :
  memoryStorage h !! userRoles keys = Some roles -> truthy roles = true ->
  memoryStorage h !! userPermissions keys = Some permissions -> truthy permissions = true ->
  let w := play (20 + fuel) [Invoke (EnhancedApiService.getUserRoles false);
                             Invoke (EnhancedApiService.getUserPermissions false)] (boot h) in
  quiescent w
  /\ all_fetches w = 0
  /\ heap w = h
  /\ result 0 w = Some (Fulfilled (EnhancedApiService.cached_envelope "roles" roles))
  /\ result 1 w
     = Some (Fulfilled (EnhancedApiService.cached_envelope "permissions" permissions)).
Proof.
  destruct h as [url tk a m i rp hst]. intros Hr Htr Hp Htp w. subst w.
  cbn [memoryStorage] in Hr, Hp. freeze_lazy_in Hr. freeze_lazy_in Hp.
  guided; freeze_lazy; rewrite ?Hr, ?Hp; split_all; reflexivity.
Qed.

Lemma cached_roles_and_permissions_witness :
  all_fetches (play 20 [Invoke (EnhancedApiService.getUserRoles false);
                        Invoke (EnhancedApiService.getUserPermissions false)]
                    (boot signed_in))
  = 0.
Proof.
  refine (proj1 (proj2
    (cached_roles_and_permissions signed_in sample_roles sample_permissions 0 _ _ _ _)));
    vm_compute; reflexivity.
Defined.

End Session.

(* ------------------------------------------------------------------ *)
(** ** AuthProvider: the role checks *)

Section Roles.
Import AuthProvider.

Lemma num_ge_of_Z (a b : Z) : num_ge (num_of_Z a) (num_of_Z b) = (b <=? a)%Z.
Proof.
  unfold num_ge. change (num_of_Z a) with (Finite (inject_Z a)) at 1.
  change (num_of_Z b) with (Finite (inject_Z b)) at 1.
  change (Finite (inject_Z a)) with (num_of_Z a). change (Finite (inject_Z b)) with (num_of_Z b).
  rewrite num_lt_of_Z. destruct (Z.ltb_spec a b), (Z.leb_spec b a); try reflexivity; lia.
Qed.

Lemma highest_level (userRoles : list Role) :
  exists top, getHighestRoleLevel userRoles = num_of_Z top
              /\ (1 <= top \/ userRoles <> [])%Z
              /\ (forall n, (2 <= n)%Z ->
                            (n <= top)%Z <-> exists r, In r userRoles /\ (n <= level r)%Z).
Proof.
  destruct userRoles as [|r0 rs].
  - exists 1%Z. split_all; [reflexivity | left; lia |].
    intros n Hn. split; [lia | intros (r & [] & _)].
  - destruct (Math_max_spec (level r0) (List.map level rs)) as (top & Hin & Hmax & Hall).
    change (level r0 :: List.map level rs) with (List.map level (r0 :: rs)) in *.
    exists top. split_all; [exact Hmax | right; discriminate |].
    intros n _. split.
    + intros Hle. apply in_map_iff in Hin as (t & <- & Ht). exists t. split; assumption.
    + intros (r & Hr & Hle). specialize (Hall (level r) (in_map level _ _ Hr)). lia.
Qed.

(** X25.  With integer levels, [isAdmin], [isSectorAdmin] and
    [isPropertyOwner] hold exactly when some role has a level of at least
    4, 3 and 2; so an admin is a sector admin and a sector admin is a
    property owner, and a user without roles is none of them. *)
Theorem role_checks_by_level (userRoles : list Role) :
  (isAdmin userRoles = true <-> exists r, In r userRoles /\ (4 <= level r)%Z)
  /\ (isSectorAdmin userRoles = true <-> exists r, In r userRoles /\ (3 <= level r)%Z)
  /\ (isPropertyOwner userRoles = true <-> exists r, In r userRoles /\ (2 <= level r)%Z)
  /\ (isAdmin userRoles = true -> isSectorAdmin userRoles = true)
  /\ (isSectorAdmin userRoles = true -> isPropertyOwner userRoles = true).
Proof.
  unfold isAdmin, isSectorAdmin, isPropertyOwner.
  destruct (highest_level userRoles) as (top & -> & _ & Htop).
  rewrite !num_ge_of_Z, !Z.leb_le.
  split_all; try (apply Htop; lia); lia.
Qed.

End Roles.

(* ------------------------------------------------------------------ *)
(** ** AnalyticsService *)

Section Analytics.
Import AnalyticsService.

(** X26.  [registerEvent] changes no field of the services.  Without a
    device identifier it rejects before any request; with one it always
    resolves, whatever the validation or the network does: a failure of
    [registerAnalyticsEvent] is absorbed. *)
Theorem registerEvent_absorbs_failures (self : Service) (h : Heap)
    (eventKeyword additionalData : jsval) (r : FetchResult) (fuel : nat) :
  let w := play (40 + fuel)
                [Invoke (registerEvent self eventKeyword additionalData); Answer r] (boot h) in
  heap w = h
  /\ quiescent w
  /\ if truthy (deviceUUID self)
     then exists v, result 0 w = Some (Fulfilled v)
     else result 0 w
          = Some (Rejected (Error "Analytics service not initialized. Call initialize() first."))
          /\ all_fetches w = 0.
Proof.
  destruct h as [url tok a m i rp hst]. destruct self as [uuid ver pf pfv].
  cbn [deviceUUID]. unfold registerEvent.
  generalize (event_of {| deviceUUID := uuid; appVersion := ver; platform := pf;
                          platformVersion := pfv |} eventKeyword additionalData).
  intros eventData. cbn zeta.
  destruct (truthy uuid) eqn:Hu.
  all: guided.
  all: freeze_lazy; split_all; try reflexivity.
  all: eexists; reflexivity.
Qed.

End Analytics.

Section Permissions.
Import AuthProvider.

(** X27.  A permission is held when it is listed; [hasAnyPermission]
    asks for one of the given permissions and [hasAllPermissions] for
    each of them, so on no permission at all the first says no and the
    second says yes, and on a non-empty list the second implies the
    first. *)
Theorem permission_checks (userPermissions permissions : list string) :
  (forall p, hasPermission userPermissions p = true <-> In p userPermissions)
  /\ (hasAnyPermission userPermissions permissions = true
      <-> exists p, In p permissions /\ In p userPermissions)
  /\ (hasAllPermissions userPermissions permissions = true
      <-> forall p, In p permissions -> In p userPermissions)
  /\ hasAnyPermission userPermissions [] = false
  /\ hasAllPermissions userPermissions [] = true
  /\ (permissions <> [] ->
      hasAllPermissions userPermissions permissions = true ->
      hasAnyPermission userPermissions permissions = true).
Proof.
  assert (Hp : forall p, hasPermission userPermissions p = true <-> In p userPermissions).
  { intros p. unfold hasPermission. rewrite existsb_exists. split.
    - intros (q & Hq & E). apply String.eqb_eq in E. subst q. exact Hq.
    - intros Hq. exists p. split; [exact Hq | apply String.eqb_refl]. }
  unfold hasAnyPermission, hasAllPermissions. split_all; try reflexivity.
  - exact Hp.
  - rewrite existsb_exists. split; intros (p & H1 & H2); exists p; split;
      try assumption; apply Hp; assumption.
  - rewrite forallb_forall. split; intros H p Hin; apply Hp; apply H; exact Hin.
  - destruct permissions as [|p ps]; [congruence|]. intros _.
    cbn [forallb existsb]. rewrite andb_true_iff. intros [-> _]. reflexivity.
Qed.

End Permissions.

Section Trackers.
Import AnalyticsService.

(** X28.  [trackSessionStart], [trackInstall] and [trackCustomEvent]
    are [registerEvent] under the keywords [new_session], [new_install]
    and the given one: the same outcome and the same requests, with no
    field changed. *)
Theorem trackers_delegate (self : Service) (h : Heap) (eventKeyword data : jsval)
    (r : FetchResult) (fuel : nat) :
  let run call := play (40 + fuel) [Invoke call; Answer r] (boot h) in
  let same call keyword :=
    quiescent (run call)
    /\ heap (run call) = h
    /\ result 0 (run call) = result 0 (run (registerEvent self keyword data))
    /\ List.filter is_any_fetch (trace (run call))
       = List.filter is_any_fetch (trace (run (registerEvent self keyword data))) in
  same (trackSessionStart self data) (VStr "new_session")
  /\ same (trackInstall self data) (VStr "new_install")
  /\ same (trackCustomEvent self eventKeyword data) eventKeyword.
Proof.
  destruct h as [url tok a m i rp hst]. destruct self as [uuid ver pf pfv].
  intros run same. subst run same. cbn beta.
  unfold trackSessionStart, trackInstall, trackCustomEvent, registerEvent.
  cbn [deviceUUID].
  set (s := {| deviceUUID := uuid; appVersion := ver; platform := pf;
               platformVersion := pfv |}).
  generalize (event_of s (VStr "new_session") data)
             (event_of s (VStr "new_install") data)
             (event_of s eventKeyword data).
  intros e1 e2 e3. cbn zeta.
  destruct (truthy uuid) eqn:Hu.
  all: split_all.
  all: guided.
  all: try guided.
  all: freeze_lazy; split_all; reflexivity.
Qed.

End Trackers.
